(** * Canvas: the choropleth renderer of [main.go], embedded in Rocq

    The development follows the request handler [mapHandler] and its helpers
    [intensityToColor], [calculateBounds], [min], [max] and the closure
    [funcToScreen].

    Modelling conventions.
    - Go's [int] (64 bits here) is [Z].  The handler never does arithmetic on
      an [int], it only compares, stores and prints them, so no wrap-around
      can occur and none is written out.
    - Go's [float64]. A number decoded from JSON is finite; it is held as the
      real number it stands for ([R]), and comparing two such numbers is
      exact. The arithmetic of [funcToScreen] is binary64 arithmetic: it is
      done on Rocq's primitive floats ([float]), one operation after the other
      as the source writes them, with their rounding, infinities and NaN;
      [float64_of] takes a decoded number to the float that it is.
    - [map[int]int] is [gmap Z Z]; [map[string]interface{}] is
      [gmap string jvalue]; a slice is a [list].
    - A run-time panic (failed type assertion, index out of range, nil
      dereference) is an explicit outcome, never a stuck term.
    - The libraries the handler calls (encoding/json, os, go.geojson, fmt's
      float formatting, math.Cos, the raster and font packages) are the fields of an
      environment record that the handler takes; the svgo canvas is the
      sequence of the calls made on it. *)

From Stdlib Require Import ZArith Reals Lra Lia Ascii Floats Epsilon.
From stdpp Require Import gmap strings pretty list.

(** A decimal literal stands for the nearest [float64], in Rocq as in Go. *)
Set Warnings "-inexact-float".

Open Scope Z_scope.

(** ** Color policy *)

(** [intensityToColor], [main.go] lines 29-56. *)
Definition intensityToColor (scale : Z) : string :=
  match scale with
  | 0 => "#27272a"
  | 1 => "#bae6fd"
  | 2 => "#4ade80"
  | 3 => "#facc15"
  | 4 => "#f97316"
  | 5 => "#dc2626"
  | 6 => "#86198f"
  | 7 => "#500724"
  | _ =>
      if bool_decide (scale > 6) then "#4a044e"
      else if bool_decide (scale > 5) then "#b91c1c"
      else "#27272a"
  end.

(** The fixed table of the eight severities 0..7, in order. *)
Definition severity_colors : list string :=
  ["#27272a"; "#bae6fd"; "#4ade80"; "#facc15";
   "#f97316"; "#dc2626"; "#86198f"; "#500724"].

(** The color policy as the specification words it: the table on [0,7], one
    color for 8, another for 9, the severity-0 color everywhere else. *)
Definition documented_color (s : Z) : string :=
  if bool_decide (0 <= s <= 7) then default "#27272a" (severity_colors !! Z.to_nat s)
  else if bool_decide (s = 8) then "#4a044e"
  else if bool_decide (s = 9) then "#b91c1c"
  else "#27272a".

(** ** HTTP replies and the control flow of a handler *)

(** A call on the svgo canvas: [Start], [Rect], [Path] and [End] each write
    one piece of markup to the buffer (the opening tag, a rectangle, a path
    element, the closing tag). The buffer is kept as the sequence of calls. *)
Inductive svg_call : Type :=
| SvgStart (w h : Z)
| SvgRect (x y w h : Z) (style : string)
| SvgPath (d : string) (style : string)
| SvgEnd.

(** What a handler leaves on its [http.ResponseWriter]: plain text written by
    [http.Error], the vector scene, or the encoded raster image. *)
Inductive Body : Type :=
| Text (s : string)
| Svg (doc : list svg_call)
| Png (bytes : string).

Record Response : Type := mkResponse {
  status : Z;
  contentType : string;
  body : Body
}.

Definition StatusOK : Z := 200.
Definition StatusBadRequest : Z := 400.
Definition StatusInternalServerError : Z := 500.

Definition newline : string := String "010"%char "".

(** [http.Error(w, error, code)]: a text reply, the message followed by a
    line feed. *)
Definition http_Error (error : string) (code : Z) : Response :=
  mkResponse code "text/plain; charset=utf-8" (Text (error +:+ newline)).

(** How a piece of handler code ends: it falls through with a value, it has
    written a reply and returned from the handler, or it panicked. *)
Inductive exec (A : Type) : Type :=
| Next (a : A)
| Reply (r : Response)
| Panic.
Arguments Next {A} a.
Arguments Reply {A} r.
Arguments Panic {A}.

Definition exec_bind {A B : Type} (k : A → exec B) (m : exec A) : exec B :=
  match m with
  | Next a => k a
  | Reply r => Reply r
  | Panic => Panic
  end.

#[export] Instance exec_mbind : MBind exec := @exec_bind.
#[export] Instance exec_mret : MRet exec := @Next.

(** [for i, x := range xs { s = body(s, i, x) }], threading the variables the
    body assigns as the state [s]. *)
Fixpoint for_range_from {A St : Type} (i : nat) (body : St → nat → A → exec St)
    (xs : list A) (s : St) : exec St :=
  match xs with
  | [] => Next s
  | x :: rest => s' ← body s i x; for_range_from (S i) body rest s'
  end.

Definition for_range {A St : Type} (body : St → nat → A → exec St)
    (xs : list A) (s : St) : exec St :=
  for_range_from 0 body xs s.

(** [xs[i]] on a slice: a panic when [i] is out of range. *)
Definition index {A : Type} (xs : list A) (i : nat) : exec A :=
  match xs !! i with
  | Some x => Next x
  | None => Panic
  end.

(** [*p] on a pointer that may be nil. *)
Definition deref {A : Type} (p : option A) : exec A :=
  match p with
  | Some x => Next x
  | None => Panic
  end.

(** What the caller of the handler observes. The server recovers a panic of
    a handler: it logs it and drops the connection, no reply is written. *)
Inductive outcome : Type :=
| Responded (r : Response)
| Panicked.

Definition run (m : exec Response) : outcome :=
  match m with
  | Next r => Responded r
  | Reply r => Responded r
  | Panic => Panicked
  end.

(** ** Intensity table *)

Record IntensityQuery : Type := mkIntensityQuery {
  ID : Z;
  Scale : Z
}.

(** [fmt.Sprintf("Invalid scale value for ID %d: %d", id, scale)]. *)
Definition invalid_scale_message (intensity : IntensityQuery) : string :=
  "Invalid scale value for ID " +:+ pretty (ID intensity) +:+ ": "
    +:+ pretty (Scale intensity).

(** The body of the validation loop of [mapHandler], lines 179-187, and the
    loop itself from the empty map of line 178. *)
Definition scaleMap_step (scaleMap : gmap Z Z) (_ : nat)
    (intensity : IntensityQuery) : exec (gmap Z Z) :=
  if bool_decide (Scale intensity < 0 ∨ Scale intensity > 7)
  then Reply (http_Error (invalid_scale_message intensity) StatusBadRequest)
  else Next (<[ID intensity := Scale intensity]> scaleMap).

Definition buildScaleMap (intensities : list IntensityQuery) : exec (gmap Z Z) :=
  for_range scaleMap_step intensities ∅.

(** ** Feature collections *)

(** A JSON value as encoding/json stores it in an [interface{}]. *)
#[warnings="-register-all"]
Inductive jvalue : Type :=
| JNull
| JBool (b : bool)
| JNumber (f : R)
| JString (s : string)
| JArray (l : list jvalue)
| JObject (m : list (string * jvalue)).

(** A decoded geometry: its type tag selects the one coordinate field that is
    filled. The handler reads the fields of polygons and multi-polygons only;
    every other type is kept by its tag. *)
Inductive Geometry : Type :=
| Polygon (polygon : list (list (list R)))
| MultiPolygon (multiPolygon : list (list (list (list R))))
| OtherGeometry (type : string).

Record Feature : Type := mkFeature {
  Properties : gmap string jvalue;
  FeatureGeometry : option Geometry
}.

Record FeatureCollection : Type := mkFeatureCollection {
  Features : list Feature
}.

(** [v, ok := x.(float64)]; [None] is [ok = false]. *)
Definition assert_float64 (x : option jvalue) : option R :=
  match x with
  | Some (JNumber f) => Some f
  | _ => None
  end.

(** [x.(float64)], the form with one result: a panic when [x] does not hold
    a [float64]. *)
Definition type_assert_float64 (x : option jvalue) : exec R :=
  match assert_float64 x with
  | Some f => Next f
  | None => Panic
  end.

(** [int(f)] on a [float64]: the fraction is dropped, towards zero. (Beyond
    the range of [int] Go leaves the result to the implementation; region
    identifiers are far from it.) *)
Definition float64_to_int (f : R) : Z :=
  if Rle_dec 0 f then Zfloor f else Zceil f.

(** [m[k]] on a [map[int]int]: the zero value when the key is absent. *)
Definition map_index (m : gmap Z Z) (k : Z) : Z := default 0 (m !! k).

(** ** Bounding box *)

Open Scope R_scope.

(** [min] and [max], [main.go] lines 318-330, on decoded numbers: these are
    finite, and the comparison of two finite floats is that of their values. *)
Definition min (a b : R) : R := if Rlt_dec a b then a else b.
Definition max (a b : R) : R := if Rgt_dec a b then a else b.

Record BBox : Type := mkBBox {
  minLon : R;
  minLat : R;
  maxLon : R;
  maxLat : R
}.

(** The values [calculateBounds] starts from. *)
Definition initialBounds : BBox := mkBBox 180 90 (-180) (-90).

(** The innermost loop body: [lon, lat := coord[0], coord[1]] and the four
    updates. *)
Definition expandBounds (b : BBox) (_ : nat) (coord : list R) : exec BBox :=
  lon ← index coord 0;
  lat ← index coord 1;
  Next (mkBBox (min (minLon b) lon) (min (minLat b) lat)
               (max (maxLon b) lon) (max (maxLat b) lat)).

Definition boundsOfRing (b : BBox) (_ : nat) (ring : list (list R)) : exec BBox :=
  for_range expandBounds ring b.

Definition boundsOfPolygon (b : BBox) (_ : nat)
    (polygon : list (list (list R))) : exec BBox :=
  for_range boundsOfRing polygon b.

(** The body of the loop over the features, lines 77-109. *)
Definition boundsOfFeature (scaleMap : gmap Z Z) (b : BBox) (_ : nat)
    (feature : Feature) : exec BBox :=
  id ← type_assert_float64 (Properties feature !! "id");
  if bool_decide (map_index scaleMap (float64_to_int id) = 0%Z) then Next b
  else
    g ← deref (FeatureGeometry feature);
    match g with
    | Polygon polygon => for_range boundsOfRing polygon b
    | MultiPolygon multiPolygon => for_range boundsOfPolygon multiPolygon b
    | OtherGeometry _ => Next b
    end.

(** [calculateBounds], [main.go] lines 71-111. *)
Definition calculateBounds (fc : FeatureCollection) (scaleMap : gmap Z Z) : exec BBox :=
  for_range (boundsOfFeature scaleMap) (Features fc) initialBounds.

Close Scope R_scope.

(** ** Float64 arithmetic *)

(** The real number a finite float64 stands for: none for an infinity and
    for NaN. *)
Definition float64_value (f : float) : option R :=
  match Prim2SF f with
  | S754_zero _ => Some 0%R
  | S754_finite s m e =>
      Some (if s then - (IZR (Z.pos m) * powerRZ 2 e) else IZR (Z.pos m) * powerRZ 2 e)%R
  | S754_infinity _ | S754_nan => None
  end.

(** A decoded number as the float64 it is: the float with this value (the
    positive zero for 0; the decoder's negative zero is not told apart). *)
Definition float64_of (r : R) : float :=
  epsilon (inhabits nan) (λ f, float64_value f = Some r ∧ Prim2SF f ≠ S754_zero true).

(** An untyped constant with an integer value, used as a [float64]. *)
Definition float64_const (c : Z) : float :=
  SF2Prim (binary_normalize prec emax c 0 false).

(** [math.Pi] as a [float64]. *)
Definition math_Pi : float := 0x1.921fb54442d18p+1.

Module Float64.

(** [min], [main.go] lines 318-323, on the results of float64 arithmetic,
    which may be infinite or NaN: the comparison is false as soon as one side
    is NaN, and the second argument is returned. *)
Definition min (a b : float) : float := if (a <? b)%float then a else b.

End Float64.

(** ** Projection *)

(** The untyped constants of lines 189-192: exact numbers, used as [int] for
    the canvas and as [float64] in the projection. *)
Definition CANVAS_WIDTH : Z := 1280.
Definition CANVAS_HEIGHT : Z := 720.

(** The closure [funcToScreen], lines 209-234, over the four bounds it
    captures; [math_Cos] is the library's cosine. Every operation rounds on
    its own, as the compiler for amd64 has it (it fuses no multiplication
    with an addition). The constant expressions [CANVAS_WIDTH / 2] and
    [CANVAS_HEIGHT / 2] are exact, and so are the float operations that
    stand for them. *)
Definition funcToScreen (math_Cos : float → float) (minLon minLat maxLon maxLat : float)
    (lon lat : float) : float * float :=
  (let margin := 0.1 in
   let effectiveWidth := float64_const CANVAS_WIDTH * (1.0 - 2 * margin) in
   let effectiveHeight := float64_const CANVAS_HEIGHT * (1.0 - 2 * margin) in
   let centerLat := (maxLat + minLat) / 2 in
   let centerLon := (maxLon + minLon) / 2 in
   let centerX := float64_const CANVAS_WIDTH / 2 in
   let centerY := float64_const CANVAS_HEIGHT / 2 in
   let lonCorrection := math_Cos (centerLat * math_Pi / 180.0) in
   let lonSpan := (maxLon - minLon) * lonCorrection in
   let latSpan := maxLat - minLat in
   let scaleX := effectiveWidth / lonSpan in
   let scaleY := effectiveHeight / latSpan in
   let scale := Float64.min scaleX scaleY in
   (((lon - centerLon) * lonCorrection) * scale + centerX,
    (centerLat - lat) * scale + centerY))%float.

(** ** The collaborators of the handler *)

(** The library calls of [mapHandler], each by what the handler consumes of
    it; an error is the text [%v] prints for it.
    - [json_Unmarshal]: [json.Unmarshal] into a [[]IntensityQuery];
    - [os_ReadFile]: the file system as [os.ReadFile] sees it;
    - [UnmarshalFeatureCollection]: go.geojson's decoder;
    - [Sprintf_f1]: fmt's verb [%.1f];
    - [math_Cos]: [math.Cos];
    - [raster_export]: the raster pipeline of [svgToPNG] (oksvg, rasterx,
      the font loader, freetype and image/png) on a scene, a size and a
      caption. *)
Record Env : Type := mkEnv {
  json_Unmarshal : string → string + list IntensityQuery;
  os_ReadFile : string → string + string;
  UnmarshalFeatureCollection : string → string + FeatureCollection;
  Sprintf_f1 : float → string;
  math_Cos : float → float;
  raster_export : list svg_call → Z → Z → string → string + string
}.

(** A request, by its query string: [r.URL.Query()]. *)
Record Request : Type := mkRequest {
  Query : gmap string (list string)
}.

(** [url.Values.Get]: the first value of the key, the empty string when the
    key is absent. *)
Definition Values_Get (v : gmap string (list string)) (key : string) : string :=
  match v !! key with
  | Some (x :: _) => x
  | _ => ""
  end.

(** An [error] checked right after the call: reply with it, or go on. *)
Definition or_reply {A : Type} (res : string + A) (prefix : string) (code : Z) : exec A :=
  match res with
  | inl err => Reply (http_Error (prefix +:+ err) code)
  | inr a => Next a
  end.

(** ** Paths *)

(** The call [funcToScreen(coord[0], coord[1])] of the drawing loops: the
    closure over the box that [calculateBounds] returned, on a decoded
    position. *)
Definition screenPoint (env : Env) (b : BBox) (lon lat : R) : float * float :=
  funcToScreen (math_Cos env)
    (float64_of (minLon b)) (float64_of (minLat b))
    (float64_of (maxLon b)) (float64_of (maxLat b))
    (float64_of lon) (float64_of lat).

(** One ring, lines 257-267 (and again 272-282): the path text built from
    ["M"], one point at a time, and closed by [" Z"]. *)
Definition ringPath_step (env : Env) (b : BBox) (pathStr : string) (i : nat)
    (coord : list R) : exec string :=
  lon ← index coord 0;
  lat ← index coord 1;
  let '(x, y) := screenPoint env b lon lat in
  match i with
  | O => Next (pathStr +:+ (Sprintf_f1 env x +:+ " " +:+ Sprintf_f1 env y))
  | _ => Next (pathStr +:+ (" L" +:+ Sprintf_f1 env x +:+ " " +:+ Sprintf_f1 env y))
  end.

Definition appendRing (env : Env) (b : BBox) (paths : list string) (_ : nat)
    (ring : list (list R)) : exec (list string) :=
  pathStr ← for_range (ringPath_step env b) ring "M";
  Next (paths ++ [pathStr +:+ " Z"]).

Definition appendPolygon (env : Env) (b : BBox) (paths : list string) (_ : nat)
    (polygon : list (list (list R))) : exec (list string) :=
  for_range (appendRing env b) polygon paths.

(** [var paths []string] and the two branches on the geometry type, lines
    254-285. *)
Definition featurePaths (env : Env) (b : BBox) (feature : Feature) : exec (list string) :=
  g ← deref (FeatureGeometry feature);
  match g with
  | Polygon polygon => for_range (appendRing env b) polygon []
  | MultiPolygon multiPolygon => for_range (appendPolygon env b) multiPolygon []
  | OtherGeometry _ => Next []
  end.

(** [finalPath], lines 287-290. *)
Definition finalPath (paths : list string) : string :=
  fold_left (λ acc p, acc +:+ (p +:+ " ")) paths "".

(** The severity the renderer resolves for an identifier, lines 248-251. *)
Definition scaleValue (scaleMap : gmap Z Z) (id : R) : Z :=
  match scaleMap !! float64_to_int id with
  | Some val => val
  | None => 0
  end.

Definition pathStyle (fillColor : string) : string :=
  "fill:" +:+ fillColor +:+ ";stroke:#a1a1aa;stroke-width:0.2;fill-opacity:0.8".

(** The body of the drawing loop, lines 241-294; the state is the canvas. *)
Definition drawFeature (env : Env) (scaleMap : gmap Z Z) (b : BBox)
    (canvas : list svg_call) (_ : nat) (feature : Feature) : exec (list svg_call) :=
  match assert_float64 (Properties feature !! "id") with
  | None => Reply (http_Error "Invalid ID format in GeoJSON" StatusInternalServerError)
  | Some id =>
      let fillColor := intensityToColor (scaleValue scaleMap id) in
      paths ← featurePaths env b feature;
      Next (canvas ++ [SvgPath (finalPath paths) (pathStyle fillColor)])
  end.

(** ** Raster export and the handler *)

Definition defaultFooter : string :=
  "Code available under the MIT License (GitHub: evacuate).".

(** [svgToPNG], lines 114-163: the caption defaults, the rest is the raster
    collaborator's. *)
Definition svgToPNG (env : Env) (svgData : list svg_call) (width height : Z)
    (footerText : string) : string + string :=
  let footerText := if bool_decide (footerText = "") then defaultFooter else footerText in
  raster_export env svgData width height footerText.

(** The canvas after [canvas.Start] and [canvas.Rect], lines 236-239. *)
Definition blankCanvas : list svg_call :=
  [SvgStart CANVAS_WIDTH CANVAS_HEIGHT;
   SvgRect 0 0 CANVAS_WIDTH CANVAS_HEIGHT "fill:#18181b"].

(** [mapHandler], [main.go] lines 165-316. *)
Definition mapHandler (env : Env) (r : Request) : outcome :=
  run (
    let scaleData := Values_Get (Query r) "scale" in
    if bool_decide (scaleData = "")
    then Reply (http_Error "scale parameter is required" StatusBadRequest)
    else
      intensities ← or_reply (json_Unmarshal env scaleData)
                      "Invalid scale data format: " StatusBadRequest;
      scaleMap ← buildScaleMap intensities;
      data ← or_reply (os_ReadFile env "japan.geojson")
               "Failed to read geojson: " StatusInternalServerError;
      fc ← or_reply (UnmarshalFeatureCollection env data)
             "Failed to unmarshal geojson: " StatusInternalServerError;
      b ← calculateBounds fc scaleMap;
      let canvas := blankCanvas in
      canvas ← for_range (drawFeature env scaleMap b) (Features fc) canvas;
      let footerText := Values_Get (Query r) "footer" in
      let canvas := canvas ++ [SvgEnd] in
      let format := Values_Get (Query r) "format" in
      if bool_decide (format = "svg")
      then Next (mkResponse StatusOK "image/svg+xml" (Svg canvas))
      else
        pngData ← or_reply (svgToPNG env canvas CANVAS_WIDTH CANVAS_HEIGHT footerText)
                    "Failed to convert svg to png: " StatusInternalServerError;
        Next (mkResponse StatusOK "image/png" (Png pngData))).

(** ** The fixed viewport (the earlier handler, part_000)

    The same handler before the adaptive viewport: no [calculateBounds], a
    projection onto a fixed map rectangle, no caption and no vector reply.
    Its validation loop, color policy and path construction are those above;
    the path construction is written over the projection it is given. *)
Module Fixed.

(** The constants of lines 103-120. *)
Definition MAP_WIDTH : Z := 500.
Definition MAP_HEIGHT : Z := 550.
Definition LON_MIN : Z := 122.
Definition LON_MAX : Z := 146.
Definition LAT_MIN : Z := 24.
Definition LAT_MAX : Z := 46.

(** The closure [funcToScreen], lines 134-144. Its two margins and its two
    scale factors are constant expressions: the compiler evaluates each
    exactly and rounds it once to a [float64]; the float operations below
    give the same four values (all but the division of [lonScale] are
    exact, and that division rounds the exact quotient once). *)
Definition funcToScreen (lon lat : float) : float * float :=
  (let marginX := (float64_const CANVAS_WIDTH - float64_const MAP_WIDTH) / 2 in
   let marginY := (float64_const CANVAS_HEIGHT - float64_const MAP_HEIGHT) / 2 in
   let lonScale := float64_const MAP_WIDTH / (float64_const LON_MAX - float64_const LON_MIN) in
   let latScale := float64_const MAP_HEIGHT / (float64_const LAT_MAX - float64_const LAT_MIN) in
   ((lon - float64_const LON_MIN) * lonScale + marginX,
    (float64_const LAT_MAX - lat) * latScale + marginY))%float.

(** The call [funcToScreen(coord[0], coord[1])] on a decoded position. *)
Definition screenPoint (lon lat : R) : float * float :=
  funcToScreen (float64_of lon) (float64_of lat).

(** One ring, lines 167-177 (and again 182-192). *)
Definition ringPath_step (env : Env) (pathStr : string) (i : nat)
    (coord : list R) : exec string :=
  lon ← index coord 0;
  lat ← index coord 1;
  let '(x, y) := screenPoint lon lat in
  match i with
  | O => Next (pathStr +:+ (Sprintf_f1 env x +:+ " " +:+ Sprintf_f1 env y))
  | _ => Next (pathStr +:+ (" L" +:+ Sprintf_f1 env x +:+ " " +:+ Sprintf_f1 env y))
  end.

Definition appendRing (env : Env) (paths : list string) (_ : nat)
    (ring : list (list R)) : exec (list string) :=
  pathStr ← for_range (ringPath_step env) ring "M";
  Next (paths ++ [pathStr +:+ " Z"]).

Definition appendPolygon (env : Env) (paths : list string) (_ : nat)
    (polygon : list (list (list R))) : exec (list string) :=
  for_range (appendRing env) polygon paths.

(** The two branches on the geometry type, lines 164-195. *)
Definition featurePaths (env : Env) (feature : Feature) : exec (list string) :=
  g ← deref (FeatureGeometry feature);
  match g with
  | Polygon polygon => for_range (appendRing env) polygon []
  | MultiPolygon multiPolygon => for_range (appendPolygon env) multiPolygon []
  | OtherGeometry _ => Next []
  end.

(** The body of the drawing loop, lines 151-204. *)
Definition drawFeature (env : Env) (scaleMap : gmap Z Z)
    (canvas : list svg_call) (_ : nat) (feature : Feature) : exec (list svg_call) :=
  match assert_float64 (Properties feature !! "id") with
  | None => Reply (http_Error "Invalid ID format in GeoJSON" StatusInternalServerError)
  | Some id =>
      let fillColor := intensityToColor (scaleValue scaleMap id) in
      paths ← featurePaths env feature;
      Next (canvas ++ [SvgPath (finalPath paths) (pathStyle fillColor)])
  end.

(** [mapHandler], part_000 lines 79-217; [raster] is its [svgToPNG], the
    raster pipeline without a caption (lines 55-77). *)
Definition mapHandler (env : Env) (raster : list svg_call → Z → Z → string + string)
    (r : Request) : outcome :=
  run (
    let scaleData := Values_Get (Query r) "scale" in
    if bool_decide (scaleData = "")
    then Reply (http_Error "scale parameter is required" StatusBadRequest)
    else
      intensities ← or_reply (json_Unmarshal env scaleData)
                      "Invalid scale data format: " StatusBadRequest;
      scaleMap ← buildScaleMap intensities;
      data ← or_reply (os_ReadFile env "japan.geojson")
               "Failed to read geojson: " StatusInternalServerError;
      fc ← or_reply (UnmarshalFeatureCollection env data)
             "Failed to unmarshal geojson: " StatusInternalServerError;
      let canvas := blankCanvas in
      canvas ← for_range (drawFeature env scaleMap) (Features fc) canvas;
      let canvas := canvas ++ [SvgEnd] in
      pngData ← or_reply (raster canvas CANVAS_WIDTH CANVAS_HEIGHT)
                  "Failed to convert svg to png: " StatusInternalServerError;
      Next (mkResponse StatusOK "image/png" (Png pngData))).

End Fixed.

(** ** Vocabulary of the specification *)

(** A severity the intensity table accepts. *)
Definition in_range (intensity : IntensityQuery) : Prop :=
  0 <= Scale intensity <= 7.

#[export] Instance in_range_dec intensity : Decision (in_range intensity).
Proof. unfold in_range. apply _. Defined.

(** The last entry of the payload that carries a given region identifier. *)
Definition last_entry (id : Z) (intensities : list IntensityQuery) : option IntensityQuery :=
  last (filter (λ intensity, ID intensity = id) intensities).

(** A reply that carries no image: a text message. *)
Definition no_image (r : Response) : Prop :=
  match body r with
  | Text _ => True
  | _ => False
  end.

(** Every reply a piece of code may write satisfies [P]. *)
Definition replies {A : Type} (P : Response → Prop) (m : exec A) : Prop :=
  match m with
  | Reply r => P r
  | _ => True
  end.

(** A position read as the point (longitude, latitude) it stands for. *)
Definition point_of (coord : list R) : option (R * R) :=
  lon ← coord !! 0%nat; lat ← coord !! 1%nat; Some (lon, lat).

(** A position on the globe. *)
Definition geographic (coord : list R) : Prop :=
  ∃ lon lat, point_of coord = Some (lon, lat) ∧
             (-180 <= lon <= 180)%R ∧ (-90 <= lat <= 90)%R.

(** All positions of a geometry, ring after ring; none for a geometry that
    is neither a polygon nor a multi-polygon. *)
Definition geometry_coords (g : Geometry) : list (list R) :=
  match g with
  | Polygon polygon => concat polygon
  | MultiPolygon multiPolygon => concat (concat multiPolygon)
  | OtherGeometry _ => []
  end.

(** Every position of the geometry has its two components. *)
Definition has_positions (g : Geometry) : Prop :=
  Forall (λ coord, is_Some (point_of coord)) (geometry_coords g).

Definition feature_points (feature : Feature) : list (R * R) :=
  match FeatureGeometry feature with
  | Some g => omap point_of (geometry_coords g)
  | None => []
  end.

(** An active region: its identifier is numeric and the table gives it a
    severity other than zero. *)
Definition is_active (scaleMap : gmap Z Z) (feature : Feature) : Prop :=
  match assert_float64 (Properties feature !! "id") with
  | Some id => map_index scaleMap (float64_to_int id) ≠ 0
  | None => False
  end.

#[export] Instance is_active_dec scaleMap feature : Decision (is_active scaleMap feature).
Proof. unfold is_active. destruct (assert_float64 _); apply _. Defined.

(** The points of the active regions, in the order of the collection. *)
Definition active_points (fc : FeatureCollection) (scaleMap : gmap Z Z) : list (R * R) :=
  feature ← filter (is_active scaleMap) (Features fc); feature_points feature.

(** One step of "expand min/max" on a point. *)
Definition extend (b : BBox) (p : R * R) : BBox :=
  mkBBox (min (minLon b) p.1) (min (minLat b) p.2)
         (max (maxLon b) p.1) (max (maxLat b) p.2).

(** The data the bounding box is specified on: every region carries a
    numeric identifier, and every active region has a geometry whose
    positions are positions on the globe. *)
Definition well_formed (fc : FeatureCollection) (scaleMap : gmap Z Z) : Prop :=
  ∀ feature, feature ∈ Features fc →
    is_Some (assert_float64 (Properties feature !! "id")) ∧
    (is_active scaleMap feature →
     ∃ g, FeatureGeometry feature = Some g ∧ Forall geographic (geometry_coords g)).

(** The collections the drawing loop gets through: every region carries a
    numeric identifier and a geometry whose positions have two components. *)
Definition drawable (fc : FeatureCollection) : Prop :=
  ∀ feature, feature ∈ Features fc →
    is_Some (assert_float64 (Properties feature !! "id")) ∧
    ∃ g, FeatureGeometry feature = Some g ∧ has_positions g.

(** The requests that reach the geometry: the payload parsed and passed the
    validation, the geometry file was read and decoded. *)
Definition reaches_geometry (env : Env) (r : Request)
    (scaleMap : gmap Z Z) (fc : FeatureCollection) : Prop :=
  Values_Get (Query r) "scale" ≠ "" ∧
  ∃ intensities data,
    json_Unmarshal env (Values_Get (Query r) "scale") = inr intensities ∧
    buildScaleMap intensities = Next scaleMap ∧
    os_ReadFile env "japan.geojson" = inr data ∧
    UnmarshalFeatureCollection env data = inr fc.

(** The number of rings of a region: those of its polygon, or of all the
    polygons of its multi-polygon; none for any other geometry. *)
Definition ring_count (feature : Feature) : nat :=
  match FeatureGeometry feature with
  | Some (Polygon polygon) => length polygon
  | Some (MultiPolygon multiPolygon) => length (concat multiPolygon)
  | _ => 0
  end.

Definition is_path (c : svg_call) : bool :=
  match c with
  | SvgPath _ _ => true
  | _ => false
  end.

(** The path elements of a scene, in order, and their number. *)
Definition path_elements (doc : list svg_call) : list svg_call :=
  filter (λ c, is_path c) doc.

Definition count_paths (doc : list svg_call) : nat :=
  length (path_elements doc).

(** The path element the drawing loop emits for a region: its data joins
    one closed path per ring, its fill is the color of the severity the
    table resolves for the region. *)
Definition drawn (env : Env) (scaleMap : gmap Z Z) (b : BBox)
    (feature : Feature) (elem : svg_call) : Prop :=
  ∃ id paths,
    assert_float64 (Properties feature !! "id") = Some id ∧
    featurePaths env b feature = Next paths ∧
    length paths = ring_count feature ∧
    elem = SvgPath (finalPath paths) (pathStyle (intensityToColor (scaleValue scaleMap id))).

(** The rings of a geometry, in drawing order. *)
Definition geometry_rings (g : Geometry) : list (list (list R)) :=
  match g with
  | Polygon polygon => polygon
  | MultiPolygon multiPolygon => concat multiPolygon
  | OtherGeometry _ => []
  end.

(** The text of a point in path data: its two screen coordinates, each with
    one decimal, separated by a space. *)
Definition point_text (env : Env) (b : BBox) (p : R * R) : string :=
  Sprintf_f1 env (screenPoint env b p.1 p.2).1 +:+ " " +:+
  Sprintf_f1 env (screenPoint env b p.1 p.2).2.

(** The text of a ring in path data: a move to the first point, a line to
    each further point, the closing command. *)
Definition ring_text (env : Env) (b : BBox) (ring : list (list R)) : string :=
  "M" +:+ String.concat " L" (map (point_text env b) (omap point_of ring)) +:+ " Z".

(** The band of a severity: the negative severities fall to 0, the
    severities above 7 to 8, the others stand for themselves. *)
Definition color_band (s : Z) : Z :=
  if bool_decide (s < 0) then 0 else if bool_decide (7 < s) then 8 else s.

(** The severity of the last entry of the payload for an identifier, zero
    when the payload has none. *)
Definition resolved_severity (id : Z) (intensities : list IntensityQuery) : Z :=
  match last_entry id intensities with
  | Some intensity => Scale intensity
  | None => 0
  end.

(** A number that is a float64: the value of a float. The decoder yields
    no other. *)
Definition float64_number (r : R) : Prop := ∃ f, float64_value f = Some r.

(** A float that is an infinity or NaN. *)
Definition infinite_or_nan (x : float) : Prop :=
  match Prim2SF x with
  | S754_infinity _ | S754_nan => True
  | _ => False
  end.

(** ** Sample inputs

    A payload as the text of its JSON array, and stand-ins for the libraries:
    a decoder that knows this one text, a file system that holds the geometry
    file, a geometry decoder that yields a given collection. They serve the
    closed examples below. *)

Definition quoted (s : string) : string :=
  String "034"%char "" +:+ s +:+ String "034"%char "".

Definition entry_text (intensity : IntensityQuery) : string :=
  "{" +:+ quoted "id" +:+ ":" +:+ pretty (ID intensity) +:+ "," +:+
  quoted "scale" +:+ ":" +:+ pretty (Scale intensity) +:+ "}".

Definition payload_text (intensities : list IntensityQuery) : string :=
  "[" +:+ String.concat "," (map entry_text intensities) +:+ "]".

(** A cosine for the examples: the series of the cosine, summed in float64.
    It is 1 at 0, as [math.Cos] is; at 35 degrees it gives
    0.8191520442889918, at 31.4 degrees 0.8535507972753275. *)
Definition cos_series (x : float) : float :=
  (let z := x * x in
   1 - z / 2 * (1 - z / 12 * (1 - z / 30 * (1 - z / 56 * (1 - z / 90 * (1 - z / 132 *
     (1 - z / 182 * (1 - z / 240 * (1 - z / 306 * (1 - z / 380))))))))))%float.

Definition sample_env (intensities : list IntensityQuery) (fc : FeatureCollection) : Env :=
  mkEnv
    (λ text, if bool_decide (text = payload_text intensities)
             then inr intensities else inl "invalid character")
    (λ name, if bool_decide (name = "japan.geojson")
             then inr "japan" else inl "no such file or directory")
    (λ _, inr fc)
    (λ _, "0.0")
    cos_series
    (λ _ _ _ _, inr "png").

Definition sample_request (intensities : list IntensityQuery) (format : string) : Request :=
  mkRequest (<["scale" := [payload_text intensities]]> {["format" := [format]]}).

(** A region with a numeric identifier, and one whose identifier is missing. *)
Definition sample_region (id : Z) (g : option Geometry) : Feature :=
  mkFeature {["id" := JNumber (IZR id)]} g.

Definition unnamed_region (g : option Geometry) : Feature :=
  mkFeature ∅ g.

(** A square over longitudes 130..140 and latitudes 30..40, and a triangle
    far to the north-east of it. *)
Definition square : Geometry :=
  Polygon [[[130; 30]; [140; 30]; [140; 40]; [130; 40]; [130; 30]]]%R.

Definition triangle : Geometry :=
  MultiPolygon [[[[141; 41]; [145; 41]; [143; 45]; [141; 41]]]]%R.

(** A collection whose only region is a point: a geometry without rings. *)
Definition point_region : FeatureCollection :=
  mkFeatureCollection [sample_region 1 (Some (OtherGeometry "Point"))].

Definition two_regions : FeatureCollection :=
  mkFeatureCollection [sample_region 1 (Some square); sample_region 2 (Some triangle)].

(** A collection whose only region is a polygon of one ring with one
    position. *)
Definition one_position (lon lat : R) : FeatureCollection :=
  mkFeatureCollection [sample_region 1 (Some (Polygon [[[lon; lat]]]))].

(** The libraries of [sample_env] over a file system without the geometry
    file, and over a geometry file that does not decode. *)
Definition missing_file_env (intensities : list IntensityQuery) : Env :=
  mkEnv (json_Unmarshal (sample_env intensities (mkFeatureCollection [])))
        (λ _, inl "open japan.geojson: no such file or directory")
        (λ _, inr (mkFeatureCollection []))
        (λ _, "0.0")
        cos_series
        (λ _ _ _ _, inr "png").

Definition broken_file_env (intensities : list IntensityQuery) : Env :=
  mkEnv (json_Unmarshal (sample_env intensities (mkFeatureCollection [])))
        (λ _, inr "japan")
        (λ _, inl "unexpected end of JSON input")
        (λ _, "0.0")
        cos_series
        (λ _ _ _ _, inr "png").

(** * Properties *)

(** ** Color policy *)

Lemma intensityToColor_above (s : Z) : 7 < s → intensityToColor s = "#4a044e".
Proof.
  intros Hs. unfold intensityToColor.
  destruct s as [|p|p]; try lia.
  do 3 (destruct p as [p|p|]; try lia; try reflexivity);
    rewrite bool_decide_eq_true_2 by lia; reflexivity.
Qed.

Lemma intensityToColor_negative (s : Z) : s < 0 → intensityToColor s = "#27272a".
Proof.
  intros Hs. destruct s as [|p|p]; try lia.
  unfold intensityToColor.
  rewrite bool_decide_eq_false_2 by lia.
  rewrite bool_decide_eq_false_2 by lia. reflexivity.
Qed.

Lemma intensityToColor_table (s : Z) :
  0 <= s <= 7 → severity_colors !! Z.to_nat s = Some (intensityToColor s).
Proof.
  intros Hs.
  assert (s = 0 ∨ s = 1 ∨ s = 2 ∨ s = 3 ∨ s = 4 ∨ s = 5 ∨ s = 6 ∨ s = 7) as Hc by lia.
  repeat (destruct Hc as [-> | Hc]; [reflexivity |]). subst s. reflexivity.
Qed.

(** C1, as the specification states it, fails at severity 9 (and at every
    severity above 9): the policy answers with the color of 8, where the
    specification promises [#b91c1c] (and the severity-0 color above 9). *)
Lemma intensityToColor_nine_is_not_documented :
  intensityToColor 9 = "#4a044e" ∧ documented_color 9 = "#b91c1c" ∧
  intensityToColor 9 ≠ documented_color 9 ∧
  intensityToColor 10 = "#4a044e" ∧ documented_color 10 = "#27272a".
Proof. repeat split; try reflexivity. discriminate. Qed.

(** C1 (amended): the color policy is total; on a severity in [0,7] it
    returns the color of the fixed table (0 gives [#27272a], ..., 7 gives
    [#500724]); on every severity above 7, so on 8 and on 9 alike, it returns
    [#4a044e]; on every negative severity it returns the severity-0 color
    [#27272a]. The color [#b91c1c] is returned for no severity. *)
Theorem intensityToColor_bands (s : Z) :
  (0 <= s <= 7 → severity_colors !! Z.to_nat s = Some (intensityToColor s)) ∧
  (7 < s → intensityToColor s = "#4a044e") ∧
  (s < 0 → intensityToColor s = "#27272a") ∧
  intensityToColor s ≠ "#b91c1c" ∧
  intensityToColor 0 = "#27272a" ∧ intensityToColor 7 = "#500724" ∧
  intensityToColor 8 = "#4a044e" ∧ intensityToColor 9 = "#4a044e".
Proof.
  split; [apply intensityToColor_table |].
  split; [apply intensityToColor_above |].
  split; [apply intensityToColor_negative |].
  split; [| repeat split; reflexivity].
  destruct (Z_lt_le_dec s 0) as [Hn | Hp].
  - rewrite intensityToColor_negative by done. discriminate.
  - destruct (Z_lt_le_dec 7 s) as [Ha | Hb].
    + rewrite intensityToColor_above by done. discriminate.
    + assert (s = 0 ∨ s = 1 ∨ s = 2 ∨ s = 3 ∨ s = 4 ∨ s = 5 ∨ s = 6 ∨ s = 7) as Hc by lia.
      repeat (destruct Hc as [-> | Hc]; [discriminate |]). subst s. discriminate.
Qed.

(** ** Control flow *)

Lemma exec_bind_next {A B : Type} (k : A → exec B) (a : A) : Next a ≫= k = k a.
Proof. reflexivity. Qed.

Lemma exec_bind_reply {A B : Type} (k : A → exec B) (r : Response) :
  (Reply r : exec A) ≫= k = Reply r.
Proof. reflexivity. Qed.

Lemma exec_bind_panic {A B : Type} (k : A → exec B) : (Panic : exec A) ≫= k = Panic.
Proof. reflexivity. Qed.

Lemma for_range_from_cons {A St : Type} (body : St → nat → A → exec St) i x xs s :
  for_range_from i body (x :: xs) s = body s i x ≫= for_range_from (S i) body xs.
Proof. reflexivity. Qed.

Lemma for_range_from_app {A St : Type} (body : St → nat → A → exec St) xs ys :
  ∀ i s, for_range_from i body (xs ++ ys) s =
         for_range_from i body xs s ≫= for_range_from (i + length xs) body ys.
Proof.
  induction xs as [| x xs IH]; intros i s.
  - simpl. rewrite Nat.add_0_r. reflexivity.
  - simpl. destruct (body s i x) as [s' | r |]; try reflexivity.
    rewrite !exec_bind_next, IH. replace (S i + length xs)%nat with (i + S (length xs))%nat by lia.
    reflexivity.
Qed.

Lemma replies_bind {A B : Type} (P : Response → Prop) (m : exec A) (k : A → exec B) :
  replies P m → (∀ a, replies P (k a)) → replies P (m ≫= k).
Proof. destruct m as [a | r |]; simpl; auto. Qed.

Lemma replies_for_range_from {A St : Type} (P : Response → Prop)
    (body : St → nat → A → exec St) :
  (∀ s i x, replies P (body s i x)) →
  ∀ xs i s, replies P (for_range_from i body xs s).
Proof.
  intros Hbody xs. induction xs as [| x xs IH]; intros i s; [exact I |].
  rewrite for_range_from_cons. apply replies_bind; [apply Hbody | intros a; apply IH].
Qed.

Lemma replies_for_range {A St : Type} (P : Response → Prop)
    (body : St → nat → A → exec St) :
  (∀ s i x, replies P (body s i x)) → ∀ xs s, replies P (for_range body xs s).
Proof. intros Hbody xs s. apply replies_for_range_from, Hbody. Qed.

Lemma replies_index {A : Type} (P : Response → Prop) (xs : list A) i :
  replies P (index xs i).
Proof. unfold index. destruct (xs !! i); exact I. Qed.

Lemma replies_deref {A : Type} (P : Response → Prop) (p : option A) :
  replies P (deref p).
Proof. destruct p; exact I. Qed.

Lemma replies_weaken {A : Type} (P Q : Response → Prop) (m : exec A) :
  (∀ r, P r → Q r) → replies P m → replies Q m.
Proof. destruct m; simpl; auto. Qed.

Lemma replies_type_assert_float64 (P : Response → Prop) (x : option jvalue) :
  replies P (type_assert_float64 x).
Proof. unfold type_assert_float64. destruct (assert_float64 x); exact I. Qed.

Create HintDb replies.
#[local] Hint Resolve replies_index replies_deref replies_type_assert_float64 : replies.

(** ** Intensity table *)

Lemma scaleMap_step_in_range scaleMap i intensity :
  in_range intensity →
  scaleMap_step scaleMap i intensity = Next (<[ID intensity := Scale intensity]> scaleMap).
Proof.
  intros H. unfold scaleMap_step, in_range in *.
  rewrite bool_decide_eq_false_2 by lia. reflexivity.
Qed.

Lemma scaleMap_step_out_of_range scaleMap i intensity :
  ¬ in_range intensity →
  scaleMap_step scaleMap i intensity =
    Reply (http_Error (invalid_scale_message intensity) StatusBadRequest).
Proof.
  intros H. unfold scaleMap_step, in_range in *.
  rewrite bool_decide_eq_true_2 by lia. reflexivity.
Qed.

(** On accepted entries the loop runs to its end and the map it leaves
    answers, for each identifier, with the last entry that carries it. *)
Lemma scaleMap_loop_last_write (intensities : list IntensityQuery) :
  Forall in_range intensities →
  ∀ i (m0 : gmap Z Z), ∃ m,
    for_range_from i scaleMap_step intensities m0 = Next m ∧
    ∀ id, m !! id = match last_entry id intensities with
                    | Some intensity => Some (Scale intensity)
                    | None => m0 !! id
                    end.
Proof.
  induction 1 as [| q l Hq Hl IH]; intros i m0.
  - exists m0. split; reflexivity.
  - destruct (IH (S i) (<[ID q := Scale q]> m0)) as (m & Hm & Hlook).
    exists m. split.
    + rewrite for_range_from_cons, scaleMap_step_in_range by done. exact Hm.
    + intros id. rewrite Hlook. unfold last_entry.
      destruct (decide (ID q = id)) as [Heq | Hne].
      * rewrite filter_cons_True by done. rewrite last_cons.
        destruct (last _); [reflexivity |].
        rewrite <- Heq. apply lookup_insert_eq.
      * rewrite filter_cons_False by done.
        destruct (last _); [reflexivity |].
        apply lookup_insert_ne. done.
Qed.

(** The loop stops at the first entry out of range, whatever came before and
    whatever follows. *)
Lemma scaleMap_loop_first_invalid pre bad post :
  Forall in_range pre → ¬ in_range bad →
  ∀ i (m0 : gmap Z Z),
    for_range_from i scaleMap_step (pre ++ bad :: post) m0 =
      Reply (http_Error (invalid_scale_message bad) StatusBadRequest).
Proof.
  intros Hpre Hbad i m0.
  rewrite for_range_from_app.
  destruct (scaleMap_loop_last_write pre Hpre i m0) as (m & -> & _).
  rewrite exec_bind_next, for_range_from_cons, scaleMap_step_out_of_range by done.
  reflexivity.
Qed.

Lemma first_invalid_split (intensities : list IntensityQuery) :
  Exists (λ intensity, ¬ in_range intensity) intensities →
  ∃ pre bad post,
    intensities = pre ++ bad :: post ∧ Forall in_range pre ∧ ¬ in_range bad.
Proof.
  induction intensities as [| q l IH]; intros Hex.
  - inversion Hex.
  - destruct (decide (in_range q)) as [Hq | Hq].
    + destruct IH as (pre & bad & post & -> & Hpre & Hbad).
      { inversion Hex; subst; [contradiction | assumption]. }
      exists (q :: pre), bad, post. split; [reflexivity |]. split; [by constructor | done].
    + exists [], q, l. split; [reflexivity |]. split; [constructor | done].
Qed.

Lemma buildScaleMap_replies (intensities : list IntensityQuery) :
  replies (λ r, ∃ msg, r = http_Error msg StatusBadRequest) (buildScaleMap intensities).
Proof.
  apply replies_for_range. intros s i x. unfold scaleMap_step.
  case_bool_decide; simpl; eauto.
Qed.

Lemma buildScaleMap_no_panic (intensities : list IntensityQuery) :
  buildScaleMap intensities ≠ Panic.
Proof.
  unfold buildScaleMap, for_range. generalize (∅ : gmap Z Z) 0%nat.
  induction intensities as [| q l IH]; intros m i; [discriminate |].
  rewrite for_range_from_cons. destruct (decide (in_range q)) as [Hq | Hq].
  - rewrite scaleMap_step_in_range by done. apply IH.
  - rewrite scaleMap_step_out_of_range by done. discriminate.
Qed.

(** ** Bounding box: control flow *)

Lemma replies_expandBounds P b i coord : replies P (expandBounds b i coord).
Proof.
  unfold expandBounds. apply replies_bind; [auto with replies |]. intros lon.
  apply replies_bind; [auto with replies |]. intros lat. exact I.
Qed.

Lemma replies_boundsOfRing P b i ring : replies P (boundsOfRing b i ring).
Proof. apply replies_for_range. intros; apply replies_expandBounds. Qed.

Lemma replies_boundsOfPolygon P b i polygon : replies P (boundsOfPolygon b i polygon).
Proof. apply replies_for_range. intros; apply replies_boundsOfRing. Qed.

Lemma replies_boundsOfFeature P scaleMap b i feature :
  replies P (boundsOfFeature scaleMap b i feature).
Proof.
  unfold boundsOfFeature. apply replies_bind; [auto with replies |]. intros id.
  case_bool_decide; [exact I |].
  apply replies_bind; [auto with replies |]. intros [polygon | multiPolygon | t].
  - apply replies_for_range. intros; apply replies_boundsOfRing.
  - apply replies_for_range. intros; apply replies_boundsOfPolygon.
  - exact I.
Qed.

(** [calculateBounds] writes no reply: it returns a box or it panics. *)
Lemma calculateBounds_replies P fc scaleMap : replies P (calculateBounds fc scaleMap).
Proof. apply replies_for_range. intros; apply replies_boundsOfFeature. Qed.

(** ** Drawing loop: control flow *)

Lemma replies_featurePaths P env b feature : replies P (featurePaths env b feature).
Proof.
  assert (∀ paths i ring, replies P (appendRing env b paths i ring)) as Hring.
  { intros paths i ring. unfold appendRing. apply replies_bind; [| intros; exact I].
    apply replies_for_range. intros s j coord. unfold ringPath_step.
    apply replies_bind; [auto with replies |]. intros lon.
    apply replies_bind; [auto with replies |]. intros lat.
    destruct (screenPoint env b lon lat) as [x y]. destruct j; exact I. }
  unfold featurePaths. apply replies_bind; [auto with replies |].
  intros [polygon | multiPolygon | t].
  - apply replies_for_range, Hring.
  - apply replies_for_range. intros paths i polygon. apply replies_for_range, Hring.
  - exact I.
Qed.

Lemma replies_drawFeature env scaleMap b canvas i feature :
  replies (λ r, r = http_Error "Invalid ID format in GeoJSON" StatusInternalServerError)
    (drawFeature env scaleMap b canvas i feature).
Proof.
  unfold drawFeature. destruct (assert_float64 _) as [id |]; [| reflexivity].
  apply replies_bind; [apply replies_featurePaths | intros; exact I].
Qed.

(** ** The handler, stage by stage *)

Lemma mapHandler_no_scale env r :
  Values_Get (Query r) "scale" = "" →
  mapHandler env r = Responded (http_Error "scale parameter is required" StatusBadRequest).
Proof. intros H. unfold mapHandler. rewrite bool_decide_eq_true_2 by done. reflexivity. Qed.

Lemma mapHandler_bad_json env r err :
  Values_Get (Query r) "scale" ≠ "" →
  json_Unmarshal env (Values_Get (Query r) "scale") = inl err →
  mapHandler env r =
    Responded (http_Error ("Invalid scale data format: " +:+ err) StatusBadRequest).
Proof.
  intros H Hjson. unfold mapHandler. rewrite bool_decide_eq_false_2 by done.
  rewrite Hjson. reflexivity.
Qed.

Lemma mapHandler_table_reply env r intensities resp :
  Values_Get (Query r) "scale" ≠ "" →
  json_Unmarshal env (Values_Get (Query r) "scale") = inr intensities →
  buildScaleMap intensities = Reply resp →
  mapHandler env r = Responded resp.
Proof.
  intros H Hjson Htable. unfold mapHandler. rewrite bool_decide_eq_false_2 by done.
  rewrite Hjson. simpl. rewrite Htable. reflexivity.
Qed.

Lemma mapHandler_bounds_panic env r scaleMap fc :
  reaches_geometry env r scaleMap fc →
  calculateBounds fc scaleMap = Panic →
  mapHandler env r = Panicked.
Proof.
  intros (H & intensities & data & Hjson & Htable & Hfile & Hfc) Hpanic.
  unfold mapHandler. rewrite bool_decide_eq_false_2 by done.
  rewrite Hjson. simpl. rewrite Htable. simpl. rewrite Hfile. simpl.
  rewrite Hfc. simpl. rewrite Hpanic. reflexivity.
Qed.

Lemma mapHandler_svg env r scaleMap fc b canvas :
  reaches_geometry env r scaleMap fc →
  calculateBounds fc scaleMap = Next b →
  for_range (drawFeature env scaleMap b) (Features fc) blankCanvas = Next canvas →
  Values_Get (Query r) "format" = "svg" →
  mapHandler env r =
    Responded (mkResponse StatusOK "image/svg+xml" (Svg (canvas ++ [SvgEnd]))).
Proof.
  intros (H & intensities & data & Hjson & Htable & Hfile & Hfc) Hb Hdraw Hfmt.
  unfold mapHandler. rewrite bool_decide_eq_false_2 by done.
  rewrite Hjson. simpl. rewrite Htable. simpl. rewrite Hfile. simpl.
  rewrite Hfc. simpl. rewrite Hb. simpl. rewrite Hdraw. simpl.
  rewrite bool_decide_eq_true_2 by done. reflexivity.
Qed.

(** Every reply of the handler is one of four: a text reply with status 400,
    a text reply with status 500, the vector scene, the raster image. *)
Lemma mapHandler_replies env r resp :
  mapHandler env r = Responded resp →
  (∃ msg, resp = http_Error msg StatusBadRequest) ∨
  (∃ msg, resp = http_Error msg StatusInternalServerError) ∨
  (∃ doc, resp = mkResponse StatusOK "image/svg+xml" (Svg doc)) ∨
  (∃ bytes, resp = mkResponse StatusOK "image/png" (Png bytes)).
Proof.
  unfold mapHandler. case_bool_decide as Hscale.
  { simpl. intros [= <-]. left. eauto. }
  destruct (json_Unmarshal env _) as [err | intensities]; simpl.
  { intros [= <-]. left. eauto. }
  pose proof (buildScaleMap_replies intensities) as Htable.
  destruct (buildScaleMap intensities) as [scaleMap | r0 |]; simpl in *; [| | discriminate].
  2: { intros [= <-]. left. exact Htable. }
  destruct (os_ReadFile env _) as [err | data]; simpl.
  { intros [= <-]. right; left. eauto. }
  destruct (UnmarshalFeatureCollection env data) as [err | fc]; simpl.
  { intros [= <-]. right; left. eauto. }
  pose proof (calculateBounds_replies (λ _, False) fc scaleMap) as Hb.
  destruct (calculateBounds fc scaleMap) as [b | r0 |]; simpl in *; [| done | discriminate].
  pose proof (replies_for_range _ _ (replies_drawFeature env scaleMap b)
                (Features fc) blankCanvas) as Hdraw.
  destruct (for_range _ _ blankCanvas) as [canvas | r0 |]; simpl in *; [| | discriminate].
  2: { intros [= <-]. right; left. eauto. }
  case_bool_decide as Hfmt; simpl.
  { intros [= <-]. right; right; left. eauto. }
  destruct (svgToPNG env _ _ _ _) as [err | bytes]; simpl.
  { intros [= <-]. right; left. eauto. }
  intros [= <-]. right; right; right. eauto.
Qed.

(** ** Sample inputs *)

Lemma payload_text_nonempty intensities : payload_text intensities ≠ "".
Proof. unfold payload_text. discriminate. Qed.

Lemma sample_request_scale intensities format :
  Values_Get (Query (sample_request intensities format)) "scale" = payload_text intensities.
Proof. unfold Values_Get, sample_request. simpl. rewrite lookup_insert_eq. reflexivity. Qed.

Lemma sample_request_format intensities format :
  Values_Get (Query (sample_request intensities format)) "format" = format.
Proof.
  unfold Values_Get, sample_request. simpl.
  rewrite lookup_insert_ne by discriminate. rewrite lookup_singleton_eq. reflexivity.
Qed.

Lemma Values_Get_other (v : gmap string (list string)) key other values :
  other ≠ key → Values_Get (<[other := values]> v) key = Values_Get v key.
Proof. intros Hne. unfold Values_Get. rewrite lookup_insert_ne by done. reflexivity. Qed.

Lemma sample_env_unmarshal intensities fc :
  json_Unmarshal (sample_env intensities fc) (payload_text intensities) = inr intensities.
Proof. simpl. rewrite bool_decide_eq_true_2 by done. reflexivity. Qed.

(** ** Validation of the payload *)

(** C7: an absent [scale] parameter is answered with status 400 and the
    message "scale parameter is required"; a value the JSON decoder refuses,
    with 400 and the decoder's error; a payload with an entry whose severity
    is outside [0,7], with 400 and the message "Invalid scale value for ID",
    the identifier of that entry in decimal, a colon, and its severity in
    decimal (the first such entry: for identifier 1 and severity 9 the text is
    "Invalid scale value for ID 1: 9"). 7 is accepted and 8 is rejected. No
    reply with status 400 carries an image. *)
Theorem scale_parameter_validation (env : Env) (r : Request) :
  (Query r !! "scale" = None →
   mapHandler env r =
     Responded (mkResponse 400 "text/plain; charset=utf-8"
                  (Text ("scale parameter is required" +:+ newline)))) ∧
  (∀ err,
     Values_Get (Query r) "scale" ≠ "" →
     json_Unmarshal env (Values_Get (Query r) "scale") = inl err →
     mapHandler env r =
       Responded (mkResponse 400 "text/plain; charset=utf-8"
                    (Text (("Invalid scale data format: " +:+ err) +:+ newline)))) ∧
  (∀ intensities,
     Values_Get (Query r) "scale" ≠ "" →
     json_Unmarshal env (Values_Get (Query r) "scale") = inr intensities →
     Exists (λ intensity, ¬ in_range intensity) intensities →
     ∃ pre bad post,
       intensities = pre ++ bad :: post ∧ Forall in_range pre ∧ ¬ in_range bad ∧
       mapHandler env r =
         Responded (mkResponse 400 "text/plain; charset=utf-8"
                      (Text (("Invalid scale value for ID " +:+ pretty (ID bad) +:+ ": "
                                +:+ pretty (Scale bad)) +:+ newline)))) ∧
  (∀ id,
     buildScaleMap [mkIntensityQuery id 7] = Next {[id := 7]} ∧
     buildScaleMap [mkIntensityQuery id 8] =
       Reply (mkResponse 400 "text/plain; charset=utf-8"
                (Text (("Invalid scale value for ID " +:+ pretty id +:+ ": 8") +:+ newline)))) ∧
  buildScaleMap [mkIntensityQuery 1 9] =
    Reply (mkResponse 400 "text/plain; charset=utf-8"
             (Text ("Invalid scale value for ID 1: 9" +:+ newline))) ∧
  buildScaleMap [mkIntensityQuery 47 (-1)] =
    Reply (mkResponse 400 "text/plain; charset=utf-8"
             (Text ("Invalid scale value for ID 47: -1" +:+ newline))) ∧
  (∀ resp,
     mapHandler env r = Responded resp → status resp = StatusBadRequest → no_image resp).
Proof.
  split; [| split; [| split; [| split; [| split; [| split]]]]].
  - intros Habsent. apply mapHandler_no_scale. unfold Values_Get. rewrite Habsent. reflexivity.
  - intros err. apply mapHandler_bad_json.
  - intros intensities Hscale Hjson Hex.
    destruct (first_invalid_split intensities Hex) as (pre & bad & post & -> & Hpre & Hbad).
    exists pre, bad, post. repeat split; try done.
    eapply mapHandler_table_reply; [done | exact Hjson |].
    apply scaleMap_loop_first_invalid; done.
  - intros id. split.
    + unfold buildScaleMap, for_range. rewrite for_range_from_cons.
      rewrite scaleMap_step_in_range by (unfold in_range; simpl; lia). reflexivity.
    + unfold buildScaleMap, for_range. rewrite for_range_from_cons.
      rewrite scaleMap_step_out_of_range by (unfold in_range; simpl; lia). reflexivity.
  - reflexivity.
  - reflexivity.
  - intros resp Hresp Hstatus.
    destruct (mapHandler_replies env r resp Hresp)
      as [(msg & ->) | [(msg & ->) | [(doc & ->) | (bytes & ->)]]];
      try exact I; discriminate.
Qed.

(** C8: on a payload whose severities all lie in [0,7] the table is built,
    and it maps every region identifier to the severity of the last entry of
    the payload that carries this identifier (and holds nothing for an
    identifier that no entry carries). *)
Theorem last_write_wins (intensities : list IntensityQuery) :
  Forall in_range intensities →
  ∃ scaleMap,
    buildScaleMap intensities = Next scaleMap ∧
    ∀ id, scaleMap !! id = Scale <$> last_entry id intensities.
Proof.
  intros Hvalid.
  destruct (scaleMap_loop_last_write intensities Hvalid 0 ∅) as (m & Hm & Hlook).
  exists m. split; [exact Hm |].
  intros id. rewrite Hlook. destruct (last_entry id intensities); [reflexivity |].
  apply lookup_empty.
Qed.

(** The payload [{id:1,scale:2},{id:1,scale:5}] resolves region 1 to 5. *)
Lemma last_write_wins_example :
  ∃ scaleMap,
    buildScaleMap [mkIntensityQuery 1 2; mkIntensityQuery 1 5] = Next scaleMap ∧
    scaleMap !! 1 = Some 5 ∧ map_index scaleMap 1 = 5.
Proof.
  destruct (last_write_wins [mkIntensityQuery 1 2; mkIntensityQuery 1 5])
    as (m & Hm & Hlook).
  - repeat constructor; unfold in_range; simpl; lia.
  - exists m. split; [exact Hm |]. unfold map_index. rewrite Hlook. split; reflexivity.
Defined.

(** C10: the severities are checked entry by entry, in the order of the
    payload, before the entry is stored: when the entries before an entry out
    of range are all in range, the reply is the 400 that names this entry,
    whatever precedes it and whatever follows it (a later valid entry for the
    same identifier included); the table loop ends exactly as it does on the
    offending entry alone. *)
Theorem validation_precedes_overwriting (env : Env) (r : Request)
    (pre post : list IntensityQuery) (bad : IntensityQuery) :
  Values_Get (Query r) "scale" ≠ "" →
  json_Unmarshal env (Values_Get (Query r) "scale") = inr (pre ++ bad :: post) →
  Forall in_range pre →
  ¬ in_range bad →
  mapHandler env r =
    Responded (http_Error (invalid_scale_message bad) StatusBadRequest) ∧
  buildScaleMap (pre ++ bad :: post) = buildScaleMap [bad].
Proof.
  intros Hscale Hjson Hpre Hbad.
  assert (buildScaleMap (pre ++ bad :: post) =
          Reply (http_Error (invalid_scale_message bad) StatusBadRequest)) as Hloop.
  { apply scaleMap_loop_first_invalid; done. }
  split.
  - eapply mapHandler_table_reply; [done | exact Hjson | exact Hloop].
  - rewrite Hloop. symmetry.
    apply (scaleMap_loop_first_invalid [] bad []); [constructor | done].
Qed.

(** The payload [{id:1,scale:9},{id:1,scale:3}] is rejected for its first
    entry; the later 3 for region 1 does not rescue it. *)
Lemma validation_precedes_overwriting_example :
  mapHandler (sample_env [mkIntensityQuery 1 9; mkIntensityQuery 1 3] (mkFeatureCollection []))
             (sample_request [mkIntensityQuery 1 9; mkIntensityQuery 1 3] "svg") =
    Responded (http_Error "Invalid scale value for ID 1: 9" StatusBadRequest) ∧
  buildScaleMap ([] ++ mkIntensityQuery 1 9 :: [mkIntensityQuery 1 3]) =
    buildScaleMap [mkIntensityQuery 1 9].
Proof.
  apply (validation_precedes_overwriting _ _ [] [mkIntensityQuery 1 3] (mkIntensityQuery 1 9)).
  - rewrite sample_request_scale. apply payload_text_nonempty.
  - rewrite sample_request_scale. apply sample_env_unmarshal.
  - constructor.
  - unfold in_range. simpl. lia.
Defined.

(** ** Bounding box: the loops as a fold over points *)

Open Scope R_scope.

Lemma min_le_l a b : min a b <= a.
Proof. unfold min. destruct (Rlt_dec a b); lra. Qed.

Lemma min_le_r a b : min a b <= b.
Proof. unfold min. destruct (Rlt_dec a b); lra. Qed.

Lemma min_cases a b : min a b = a ∨ min a b = b.
Proof. unfold min. destruct (Rlt_dec a b); auto. Qed.

Lemma max_ge_l a b : a <= max a b.
Proof. unfold max. destruct (Rgt_dec a b); lra. Qed.

Lemma max_ge_r a b : b <= max a b.
Proof. unfold max. destruct (Rgt_dec a b); lra. Qed.

Lemma max_cases a b : max a b = a ∨ max a b = b.
Proof. unfold max. destruct (Rgt_dec a b); auto. Qed.

Lemma min_lt a b : a < b → min a b = a.
Proof. intros H. unfold min. destruct (Rlt_dec a b); [reflexivity | contradiction]. Qed.

Lemma min_ge a b : b <= a → min a b = b.
Proof. intros H. unfold min. destruct (Rlt_dec a b); [lra | reflexivity]. Qed.

Lemma max_gt a b : a > b → max a b = a.
Proof. intros H. unfold max. destruct (Rgt_dec a b); [reflexivity | contradiction]. Qed.

Lemma max_le a b : a <= b → max a b = b.
Proof. intros H. unfold max. destruct (Rgt_dec a b); [lra | reflexivity]. Qed.

(** Evaluates [min] and [max] on arguments that [lra] can compare. *)
Ltac eval_min_max :=
  repeat match goal with
         | |- context [min ?a ?b] =>
             first [rewrite (min_lt a b) by lra | rewrite (min_ge a b) by lra]
         | |- context [max ?a ?b] =>
             first [rewrite (max_gt a b) by lra | rewrite (max_le a b) by lra]
         end.

Close Scope R_scope.

Lemma expandBounds_point b i coord p :
  point_of coord = Some p → expandBounds b i coord = Next (extend b p).
Proof.
  unfold point_of, expandBounds, index. intros H.
  destruct (coord !! 0%nat) as [lon |]; [| discriminate].
  destruct (coord !! 1%nat) as [lat |]; [| discriminate].
  simpl in H. injection H as <-. reflexivity.
Qed.

Lemma ring_loop_fold (ring : list (list R)) :
  Forall (λ coord, is_Some (point_of coord)) ring →
  ∀ i b, for_range_from i expandBounds ring b =
         Next (fold_left extend (omap point_of ring) b).
Proof.
  induction 1 as [| coord ring [p Hp] _ IH]; intros i b; [reflexivity |].
  rewrite for_range_from_cons, (expandBounds_point _ _ _ _ Hp), exec_bind_next, IH.
  simpl. rewrite Hp. reflexivity.
Qed.

Lemma boundsOfRing_unfold b i ring :
  boundsOfRing b i ring = for_range_from 0 expandBounds ring b.
Proof. reflexivity. Qed.

Lemma boundsOfPolygon_unfold b i polygon :
  boundsOfPolygon b i polygon = for_range_from 0 boundsOfRing polygon b.
Proof. reflexivity. Qed.

Lemma polygon_loop_fold (polygon : list (list (list R))) :
  Forall (λ coord, is_Some (point_of coord)) (concat polygon) →
  ∀ i b, for_range_from i boundsOfRing polygon b =
         Next (fold_left extend (omap point_of (concat polygon)) b).
Proof.
  induction polygon as [| ring polygon IH]; intros Hall i b; [reflexivity |].
  simpl in Hall. apply Forall_app in Hall as [Hring Hrest].
  rewrite for_range_from_cons, boundsOfRing_unfold.
  rewrite (ring_loop_fold ring Hring), exec_bind_next, (IH Hrest).
  simpl. rewrite omap_app, fold_left_app. reflexivity.
Qed.

Lemma multiPolygon_loop_fold (multiPolygon : list (list (list (list R)))) :
  Forall (λ coord, is_Some (point_of coord)) (concat (concat multiPolygon)) →
  ∀ i b, for_range_from i boundsOfPolygon multiPolygon b =
         Next (fold_left extend (omap point_of (concat (concat multiPolygon))) b).
Proof.
  induction multiPolygon as [| polygon multiPolygon IH]; intros Hall i b; [reflexivity |].
  simpl in Hall. rewrite concat_app in Hall. apply Forall_app in Hall as [Hpoly Hrest].
  rewrite for_range_from_cons, boundsOfPolygon_unfold.
  rewrite (polygon_loop_fold polygon Hpoly), exec_bind_next, (IH Hrest).
  simpl. rewrite concat_app, omap_app, fold_left_app. reflexivity.
Qed.

Lemma geographic_is_position coord : geographic coord → is_Some (point_of coord).
Proof. intros (lon & lat & H & _). eauto. Qed.

(** An inactive region with a numeric identifier leaves the box as it is. *)
Lemma boundsOfFeature_inactive scaleMap b i feature :
  is_Some (assert_float64 (Properties feature !! "id")) →
  ¬ is_active scaleMap feature →
  boundsOfFeature scaleMap b i feature = Next b.
Proof.
  intros [id Hid] Hinactive. unfold boundsOfFeature, type_assert_float64, is_active in *.
  rewrite Hid in *. simpl.
  rewrite bool_decide_eq_true_2; [reflexivity |].
  destruct (decide (map_index scaleMap (float64_to_int id) = 0)); [done | contradiction].
Qed.

(** An active region extends the box by its points, in order. *)
Lemma boundsOfFeature_active scaleMap b i feature g :
  is_active scaleMap feature →
  FeatureGeometry feature = Some g →
  has_positions g →
  boundsOfFeature scaleMap b i feature = Next (fold_left extend (feature_points feature) b).
Proof.
  intros Hactive Hg Hpos.
  unfold boundsOfFeature, type_assert_float64, is_active, feature_points in *.
  destruct (assert_float64 _) as [id |]; [| contradiction]. simpl.
  rewrite bool_decide_eq_false_2 by done. rewrite Hg. simpl.
  unfold has_positions in Hpos.
  destruct g as [polygon | multiPolygon | t]; simpl in *.
  - apply polygon_loop_fold, Hpos.
  - apply multiPolygon_loop_fold, Hpos.
  - reflexivity.
Qed.

Lemma features_loop_fold scaleMap (features : list Feature) :
  (∀ feature, feature ∈ features →
     is_Some (assert_float64 (Properties feature !! "id")) ∧
     (is_active scaleMap feature →
      ∃ g, FeatureGeometry feature = Some g ∧ has_positions g)) →
  ∀ i b, for_range_from i (boundsOfFeature scaleMap) features b =
         Next (fold_left extend
                 (feature ← filter (is_active scaleMap) features; feature_points feature) b).
Proof.
  induction features as [| feature features IH]; intros Hwf i b; [reflexivity |].
  rewrite for_range_from_cons.
  destruct (Hwf feature) as [Hid Hgeo]; [left |].
  assert (∀ f, f ∈ features →
     is_Some (assert_float64 (Properties f !! "id")) ∧
     (is_active scaleMap f →
      ∃ g, FeatureGeometry f = Some g ∧ has_positions g)) as Hrest.
  { intros f Hf. apply Hwf. right. exact Hf. }
  destruct (decide (is_active scaleMap feature)) as [Hactive | Hinactive].
  - destruct (Hgeo Hactive) as (g & Hg & Hcoords).
    rewrite (boundsOfFeature_active _ _ _ _ g) by done.
    rewrite exec_bind_next, (IH Hrest).
    rewrite filter_cons_True by done. simpl. rewrite fold_left_app. reflexivity.
  - rewrite boundsOfFeature_inactive by done.
    rewrite exec_bind_next, (IH Hrest).
    rewrite filter_cons_False by done. reflexivity.
Qed.

(** On well-formed data [calculateBounds] returns, and its box is the fold
    of [extend] over the points of the active regions. *)
Lemma calculateBounds_fold fc scaleMap :
  well_formed fc scaleMap →
  calculateBounds fc scaleMap =
    Next (fold_left extend (active_points fc scaleMap) initialBounds).
Proof.
  intros Hwf. apply features_loop_fold. intros feature Hin.
  destruct (Hwf feature Hin) as [Hid Hgeo]. split; [exact Hid |].
  intros Hactive. destruct (Hgeo Hactive) as (g & Hg & Hcoords).
  exists g. split; [exact Hg |].
  eapply Forall_impl; [exact Hcoords | apply geographic_is_position].
Qed.

(** On a drawable collection [calculateBounds] returns. *)
Lemma calculateBounds_total fc scaleMap :
  drawable fc → ∃ b, calculateBounds fc scaleMap = Next b.
Proof.
  intros Hd. eexists. apply features_loop_fold. intros feature Hin.
  destruct (Hd feature Hin) as [Hid Hg]. split; [exact Hid | intros _; exact Hg].
Qed.

(** ** Bounding box: order *)

Open Scope R_scope.

Lemma fold_extend_shrinks (pts : list (R * R)) :
  ∀ b, let b' := fold_left extend pts b in
       minLon b' <= minLon b ∧ minLat b' <= minLat b ∧
       maxLon b <= maxLon b' ∧ maxLat b <= maxLat b'.
Proof.
  induction pts as [| p pts IH]; intros b; simpl; [lra |].
  specialize (IH (extend b p)). simpl in IH.
  pose proof (min_le_l (minLon b) p.1). pose proof (min_le_l (minLat b) p.2).
  pose proof (max_ge_l (maxLon b) p.1). pose proof (max_ge_l (maxLat b) p.2).
  lra.
Qed.

Lemma fold_extend_contains (pts : list (R * R)) :
  ∀ b p, p ∈ pts →
    let b' := fold_left extend pts b in
    minLon b' <= p.1 <= maxLon b' ∧ minLat b' <= p.2 <= maxLat b'.
Proof.
  induction pts as [| q pts IH]; intros b p Hp; [by apply elem_of_nil in Hp |].
  apply elem_of_cons in Hp as [-> | Hp]; simpl.
  - pose proof (fold_extend_shrinks pts (extend b q)) as Hs. simpl in Hs.
    pose proof (min_le_r (minLon b) q.1). pose proof (min_le_r (minLat b) q.2).
    pose proof (max_ge_r (maxLon b) q.1). pose proof (max_ge_r (maxLat b) q.2).
    lra.
  - apply IH, Hp.
Qed.

Lemma fold_extend_attained (pts : list (R * R)) :
  ∀ b, let b' := fold_left extend pts b in
       (minLon b' = minLon b ∨ ∃ p, p ∈ pts ∧ p.1 = minLon b') ∧
       (minLat b' = minLat b ∨ ∃ p, p ∈ pts ∧ p.2 = minLat b') ∧
       (maxLon b' = maxLon b ∨ ∃ p, p ∈ pts ∧ p.1 = maxLon b') ∧
       (maxLat b' = maxLat b ∨ ∃ p, p ∈ pts ∧ p.2 = maxLat b').
Proof.
  induction pts as [| q pts IH]; intros b; simpl; [tauto |].
  destruct (IH (extend b q)) as (H1 & H2 & H3 & H4). simpl in *.
  assert (∀ (v : R) (proj : R * R → R),
            (∃ p, p ∈ pts ∧ proj p = v) → ∃ p, p ∈ q :: pts ∧ proj p = v) as Hlater.
  { intros v proj (p & Hp & Hv). exists p. split; [by right | done]. }
  assert (∀ (v : R) (proj : R * R → R),
            proj q = v → ∃ p, p ∈ q :: pts ∧ proj p = v) as Hnow.
  { intros v proj Hv. exists q. split; [by left | done]. }
  repeat split.
  - destruct H1 as [H1 | H1]; [| right; by apply (Hlater _ fst)].
    rewrite H1. destruct (min_cases (minLon b) q.1) as [-> | Hq]; [by left |].
    right. apply (Hnow _ fst). congruence.
  - destruct H2 as [H2 | H2]; [| right; by apply (Hlater _ snd)].
    rewrite H2. destruct (min_cases (minLat b) q.2) as [-> | Hq]; [by left |].
    right. apply (Hnow _ snd). congruence.
  - destruct H3 as [H3 | H3]; [| right; by apply (Hlater _ fst)].
    rewrite H3. destruct (max_cases (maxLon b) q.1) as [-> | Hq]; [by left |].
    right. apply (Hnow _ fst). congruence.
  - destruct H4 as [H4 | H4]; [| right; by apply (Hlater _ snd)].
    rewrite H4. destruct (max_cases (maxLat b) q.2) as [-> | Hq]; [by left |].
    right. apply (Hnow _ snd). congruence.
Qed.

Close Scope R_scope.

Lemma active_points_geographic fc scaleMap p :
  well_formed fc scaleMap → p ∈ active_points fc scaleMap →
  (-180 <= p.1 <= 180)%R ∧ (-90 <= p.2 <= 90)%R.
Proof.
  intros Hwf Hp. unfold active_points in Hp.
  apply list_elem_of_bind in Hp as (feature & Hp & Hfeature).
  apply list_elem_of_filter in Hfeature as [Hactive Hin].
  destruct (Hwf feature Hin) as [_ Hgeo].
  destruct (Hgeo Hactive) as (g & Hg & Hcoords).
  unfold feature_points in Hp. rewrite Hg in Hp.
  apply list_elem_of_omap in Hp as (coord & Hcoord & Hpoint).
  rewrite Forall_forall in Hcoords.
  destruct (Hcoords coord Hcoord) as (lon & lat & Hll & Hlon & Hlat).
  rewrite Hll in Hpoint. injection Hpoint as <-. simpl. split; assumption.
Qed.

Lemma well_formed_active_only fc scaleMap :
  well_formed fc scaleMap →
  well_formed (mkFeatureCollection (filter (is_active scaleMap) (Features fc))) scaleMap.
Proof.
  intros Hwf feature Hin. simpl in Hin.
  apply list_elem_of_filter in Hin as [_ Hin]. apply Hwf, Hin.
Qed.

Lemma filter_active_twice scaleMap (features : list Feature) :
  filter (is_active scaleMap) (filter (is_active scaleMap) features) =
  filter (is_active scaleMap) features.
Proof.
  induction features as [| feature features IH]; [reflexivity |].
  destruct (decide (is_active scaleMap feature)) as [Ha | Ha].
  - rewrite (filter_cons_True _ _ _ Ha). rewrite (filter_cons_True _ _ _ Ha).
    rewrite IH. reflexivity.
  - rewrite (filter_cons_False _ _ _ Ha). exact IH.
Qed.

(** C6: in adaptive mode, on a geometry file as the specification describes
    it (every region carries a numeric identifier, the positions of the
    active regions are longitude/latitude pairs on the globe) with at least
    one coordinate in an active region, [calculateBounds] returns the box
    that is exactly the componentwise minimum and maximum over the
    coordinates of the rings of the regions whose severity in the table is
    nonzero: every such coordinate lies inside the box, and each of the four
    sides of the box is the longitude or the latitude of one of them. The
    regions of severity zero (explicit or absent) contribute nothing:
    dropping them from the collection leaves the box as it is. *)
Theorem bounds_of_active_regions (fc : FeatureCollection) (scaleMap : gmap Z Z) :
  well_formed fc scaleMap →
  active_points fc scaleMap ≠ [] →
  ∃ b,
    calculateBounds fc scaleMap = Next b ∧
    (∀ p, p ∈ active_points fc scaleMap →
       (minLon b <= p.1 <= maxLon b)%R ∧ (minLat b <= p.2 <= maxLat b)%R) ∧
    (∃ p, p ∈ active_points fc scaleMap ∧ p.1 = minLon b) ∧
    (∃ p, p ∈ active_points fc scaleMap ∧ p.2 = minLat b) ∧
    (∃ p, p ∈ active_points fc scaleMap ∧ p.1 = maxLon b) ∧
    (∃ p, p ∈ active_points fc scaleMap ∧ p.2 = maxLat b) ∧
    calculateBounds
      (mkFeatureCollection (filter (is_active scaleMap) (Features fc))) scaleMap = Next b.
Proof.
  intros Hwf Hne.
  exists (fold_left extend (active_points fc scaleMap) initialBounds).
  split; [apply calculateBounds_fold, Hwf |].
  split; [intros p Hp; apply (fold_extend_contains _ initialBounds p Hp) |].
  assert ((∃ p, p ∈ active_points fc scaleMap ∧
                p.1 = minLon (fold_left extend (active_points fc scaleMap) initialBounds)) ∧
          (∃ p, p ∈ active_points fc scaleMap ∧
                p.2 = minLat (fold_left extend (active_points fc scaleMap) initialBounds)) ∧
          (∃ p, p ∈ active_points fc scaleMap ∧
                p.1 = maxLon (fold_left extend (active_points fc scaleMap) initialBounds)) ∧
          (∃ p, p ∈ active_points fc scaleMap ∧
                p.2 = maxLat (fold_left extend (active_points fc scaleMap) initialBounds)))
    as (Hw & Hs & He & Hn).
  { destruct (active_points fc scaleMap) as [| q pts] eqn:Hpts; [done |].
    assert (q ∈ q :: pts) as Hq by left.
    pose proof (fold_extend_contains (q :: pts) initialBounds q Hq) as Hin.
    assert ((-180 <= q.1 <= 180)%R ∧ (-90 <= q.2 <= 90)%R) as Hgeo.
    { apply (active_points_geographic fc scaleMap); [done |]. rewrite Hpts. left. }
    destruct (fold_extend_attained (q :: pts) initialBounds) as (H1 & H2 & H3 & H4).
    cbv zeta in Hin, H1, H2, H3, H4.
    set (b' := fold_left extend (q :: pts) initialBounds) in *.
    change (minLon initialBounds) with 180%R in H1.
    change (minLat initialBounds) with 90%R in H2.
    change (maxLon initialBounds) with (-180)%R in H3.
    change (maxLat initialBounds) with (-90)%R in H4.
    repeat split.
    + destruct H1 as [H1 | H1]; [| exact H1]. exists q. split; [done |]. lra.
    + destruct H2 as [H2 | H2]; [| exact H2]. exists q. split; [done |]. lra.
    + destruct H3 as [H3 | H3]; [| exact H3]. exists q. split; [done |]. lra.
    + destruct H4 as [H4 | H4]; [| exact H4]. exists q. split; [done |]. lra. }
  split; [exact Hw |]. split; [exact Hs |]. split; [exact He |]. split; [exact Hn |].
  rewrite calculateBounds_fold by (apply well_formed_active_only, Hwf).
  unfold active_points. simpl. rewrite filter_active_twice. reflexivity.
Qed.

(** ** The sample regions *)

Lemma float64_to_int_IZR (z : Z) : float64_to_int (IZR z) = z.
Proof.
  unfold float64_to_int. destruct (Rle_dec 0 (IZR z)).
  - apply ZfloorZ.
  - unfold Zceil. rewrite <- opp_IZR, ZfloorZ. lia.
Qed.

Lemma sample_region_id id g :
  assert_float64 (Properties (sample_region id g) !! "id") = Some (IZR id).
Proof. unfold sample_region. simpl. rewrite lookup_singleton_eq. reflexivity. Qed.

Lemma sample_region_active scaleMap id g :
  is_active scaleMap (sample_region id g) ↔ map_index scaleMap id ≠ 0.
Proof. unfold is_active. rewrite sample_region_id, float64_to_int_IZR. reflexivity. Qed.

Lemma geographic_pair (lon lat : R) :
  (-180 <= lon <= 180)%R → (-90 <= lat <= 90)%R → geographic [lon; lat].
Proof. intros Hlon Hlat. exists lon, lat. split; [reflexivity | split; assumption]. Qed.

Lemma two_regions_well_formed scaleMap : well_formed two_regions scaleMap.
Proof.
  intros feature Hin. unfold two_regions in Hin. simpl in Hin.
  apply elem_of_cons in Hin as [-> | Hin]; [| apply elem_of_cons in Hin as [-> | Hin]].
  - split; [rewrite sample_region_id; eauto |]. intros _.
    exists square. split; [reflexivity |]. simpl.
    repeat (constructor; [apply geographic_pair; lra |]). constructor.
  - split; [rewrite sample_region_id; eauto |]. intros _.
    exists triangle. split; [reflexivity |]. simpl.
    repeat (constructor; [apply geographic_pair; lra |]). constructor.
  - by apply elem_of_nil in Hin.
Qed.

Lemma two_regions_active_points :
  active_points two_regions {[1 := 3]} =
    [(130, 30); (140, 30); (140, 40); (130, 40); (130, 30)]%R.
Proof.
  unfold active_points, two_regions. simpl Features.
  rewrite filter_cons_True by (apply sample_region_active; done).
  rewrite filter_cons_False by (rewrite sample_region_active; intros H; by apply H).
  reflexivity.
Qed.

(** With region 1 at severity 3 and region 2 absent from the table, the box
    is the square of region 1: the triangle of region 2 does not count. *)
Lemma bounds_of_active_regions_example :
  ∃ b,
    calculateBounds two_regions {[1 := 3]} = Next b ∧
    (∀ p, p ∈ active_points two_regions {[1 := 3]} →
       (minLon b <= p.1 <= maxLon b)%R ∧ (minLat b <= p.2 <= maxLat b)%R) ∧
    (∃ p, p ∈ active_points two_regions {[1 := 3]} ∧ p.1 = minLon b) ∧
    (∃ p, p ∈ active_points two_regions {[1 := 3]} ∧ p.2 = minLat b) ∧
    (∃ p, p ∈ active_points two_regions {[1 := 3]} ∧ p.1 = maxLon b) ∧
    (∃ p, p ∈ active_points two_regions {[1 := 3]} ∧ p.2 = maxLat b) ∧
    calculateBounds
      (mkFeatureCollection (filter (is_active {[1 := 3]}) (Features two_regions)))
      {[1 := 3]} = Next b.
Proof.
  apply bounds_of_active_regions; [apply two_regions_well_formed |].
  rewrite two_regions_active_points. discriminate.
Defined.

Lemma two_regions_bounds :
  calculateBounds two_regions {[1 := 3]} = Next (mkBBox 130 30 140 40).
Proof.
  rewrite calculateBounds_fold by apply two_regions_well_formed.
  rewrite two_regions_active_points. f_equal. unfold initialBounds, extend. simpl.
  eval_min_max. reflexivity.
Qed.

(** ** Float64: values *)

Lemma digits2_pos_size (m : positive) : digits2_pos m = Pos.size m.
Proof. induction m as [m IH | m IH |]; simpl; congruence. Qed.

Lemma powerRZ_2_pos (e : Z) : (0 < powerRZ 2 e)%R.
Proof. apply powerRZ_lt. lra. Qed.

Lemma IZR_pow2 (k : Z) : 0 <= k → IZR (2 ^ k) = powerRZ 2 k.
Proof.
  intros Hk. rewrite <- (Z2Nat.id k Hk) at 1. rewrite <- pow_IZR.
  rewrite pow_powerRZ, Z2Nat.id by exact Hk. reflexivity.
Qed.

Lemma powerRZ_2_mono (a b : Z) : a <= b → (powerRZ 2 a <= powerRZ 2 b)%R.
Proof.
  intros Hab. replace b with (a + (b - a)) by lia. rewrite powerRZ_add by lra.
  rewrite <- (IZR_pow2 (b - a)) by lia.
  assert (1 <= 2 ^ (b - a)) as Hone by (pose proof (Z.pow_pos_nonneg 2 (b - a)); lia).
  apply IZR_le in Hone. pose proof (powerRZ_2_pos a). nra.
Qed.

(** A mantissa of [d] binary digits at exponent [e] lies between the
    powers of two of [d + e - 1] and of [d + e]. *)
Lemma mantissa_bounds (m : positive) (e : Z) :
  let t := Z.pos (digits2_pos m) + e in
  (powerRZ 2 (t - 1) <= IZR (Z.pos m) * powerRZ 2 e < powerRZ 2 t)%R.
Proof.
  intros t. unfold t. rewrite digits2_pos_size.
  pose proof (Pos.size_gt m) as Hgt. pose proof (Pos.size_le m) as Hle.
  apply Pos2Z.pos_lt_pos in Hgt. apply Pos2Z.pos_le_pos in Hle.
  rewrite Pos2Z.inj_pow in Hgt, Hle.
  set (d := Z.pos (Pos.size m)) in *. assert (0 < d) as Hd by (unfold d; lia).
  assert (2 ^ (d - 1) <= Z.pos m) as Hlow.
  { replace d with (Z.succ (d - 1)) in Hle by lia. rewrite Z.pow_succ_r in Hle by lia. lia. }
  apply IZR_le in Hlow. apply IZR_lt in Hgt.
  rewrite IZR_pow2 in Hlow by lia. rewrite IZR_pow2 in Hgt by lia.
  pose proof (powerRZ_2_pos e) as He.
  replace (d + e - 1) with ((d - 1) + e) by lia.
  rewrite !powerRZ_add by lra.
  split; [apply Rmult_le_compat_r; lra | apply Rmult_lt_compat_r; lra].
Qed.

(** Two canonical mantissas with their exponents that stand for the same
    number are the same. *)
Lemma canonical_unique (m1 m2 : positive) (e1 e2 : Z) :
  canonical_mantissa prec emax m1 e1 = true →
  canonical_mantissa prec emax m2 e2 = true →
  (IZR (Z.pos m1) * powerRZ 2 e1 = IZR (Z.pos m2) * powerRZ 2 e2)%R →
  m1 = m2 ∧ e1 = e2.
Proof.
  unfold canonical_mantissa. intros H1 H2 Hv.
  apply Z.eqb_eq in H1. apply Z.eqb_eq in H2.
  pose proof (mantissa_bounds m1 e1) as B1. pose proof (mantissa_bounds m2 e2) as B2.
  cbv zeta in B1, B2. rewrite Hv in B1.
  set (t1 := Z.pos (digits2_pos m1) + e1) in *.
  set (t2 := Z.pos (digits2_pos m2) + e2) in *.
  assert (t1 = t2) as Ht.
  { destruct (Z.lt_trichotomy t1 t2) as [Hlt | [Heq | Hgt]]; [| exact Heq |].
    - assert (powerRZ 2 t1 <= powerRZ 2 (t2 - 1))%R by (apply powerRZ_2_mono; lia). lra.
    - assert (powerRZ 2 t2 <= powerRZ 2 (t1 - 1))%R by (apply powerRZ_2_mono; lia). lra. }
  assert (e1 = e2) as He by congruence. split; [| exact He]. rewrite <- He in Hv.
  pose proof (powerRZ_2_pos e1) as Hp.
  apply Rmult_eq_reg_r in Hv; [| lra]. apply eq_IZR in Hv. congruence.
Qed.

(** A number is the value of at most one float, the negative zero aside. *)
Lemma float64_value_inj (f g : float) (r : R) :
  float64_value f = Some r → float64_value g = Some r →
  Prim2SF f ≠ S754_zero true → Prim2SF g ≠ S754_zero true → f = g.
Proof.
  unfold float64_value. intros Hf Hg Hfz Hgz. apply Prim2SF_inj.
  pose proof (Prim2SF_valid f) as Vf. pose proof (Prim2SF_valid g) as Vg.
  destruct (Prim2SF f) as [sf | sf | | sf mf ef]; try discriminate;
    destruct (Prim2SF g) as [sg | sg | | sg mg eg]; try discriminate.
  - destruct sf, sg; congruence.
  - exfalso. injection Hf as <-. injection Hg as Hg.
    pose proof (mantissa_bounds mg eg) as B.
    pose proof (powerRZ_2_pos (Z.pos (digits2_pos mg) + eg - 1)).
    cbv zeta in B. destruct sg; lra.
  - exfalso. injection Hg as <-. injection Hf as Hf.
    pose proof (mantissa_bounds mf ef) as B.
    pose proof (powerRZ_2_pos (Z.pos (digits2_pos mf) + ef - 1)).
    cbv zeta in B. destruct sf; lra.
  - injection Hf as Hf. injection Hg as Hg.
    simpl in Vf, Vg. unfold bounded in Vf, Vg.
    apply andb_prop in Vf as [Cf _]. apply andb_prop in Vg as [Cg _].
    pose proof (mantissa_bounds mf ef) as Bf. pose proof (mantissa_bounds mg eg) as Bg.
    pose proof (powerRZ_2_pos (Z.pos (digits2_pos mf) + ef - 1)).
    pose proof (powerRZ_2_pos (Z.pos (digits2_pos mg) + eg - 1)).
    cbv zeta in Bf, Bg.
    destruct sf, sg; try (exfalso; lra).
    + destruct (canonical_unique mf mg ef eg Cf Cg) as [-> ->]; [lra | reflexivity].
    + destruct (canonical_unique mf mg ef eg Cf Cg) as [-> ->]; [lra | reflexivity].
Qed.

(** [float64_of] finds the float of a number that has one. *)
Lemma float64_of_value (f : float) (r : R) :
  float64_value f = Some r → Prim2SF f ≠ S754_zero true → float64_of r = f.
Proof.
  intros Hf Hz. unfold float64_of.
  pose proof (epsilon_spec (inhabits nan)
                (λ g, float64_value g = Some r ∧ Prim2SF g ≠ S754_zero true)) as Hspec.
  destruct Hspec as [Hg Hgz]; [exists f; split; assumption |].
  eapply float64_value_inj; eassumption.
Qed.

(** [float64_of r = f] for a number and a float that are both given. *)
Ltac float64_of_literal :=
  lazymatch goal with
  | |- float64_of _ = ?f =>
      apply float64_of_value;
      [ unfold float64_value;
        let v := eval vm_compute in (Prim2SF f) in
        replace (Prim2SF f) with v by (vm_compute; reflexivity);
        f_equal; simpl; lra
      | vm_compute; discriminate ]
  end.

Lemma float64_of_initialBounds :
  float64_of (minLon initialBounds) = 180%float ∧
  float64_of (minLat initialBounds) = 90%float ∧
  float64_of (maxLon initialBounds) = (-180)%float ∧
  float64_of (maxLat initialBounds) = (-90)%float.
Proof. repeat split; simpl; float64_of_literal. Qed.

(** ** Float64: the operations on zero *)

Lemma is_finite_SF (x : float) :
  is_finite x = true →
  (∃ s, Prim2SF x = S754_zero s) ∨ (∃ s m e, Prim2SF x = S754_finite s m e).
Proof.
  unfold is_finite, is_nan, is_infinity. rewrite !FloatAxioms.eqb_spec, abs_spec.
  replace (Prim2SF infinity) with (S754_infinity false) by (vm_compute; reflexivity).
  destruct (Prim2SF x) as [s | [|] | | s m e]; simpl; try discriminate; eauto.
Qed.

Lemma float64_sub_diag (a : float) : is_finite a = true → (a - a)%float = 0%float.
Proof.
  intros Ha. apply Prim2SF_inj. rewrite sub_spec.
  replace (Prim2SF 0) with (S754_zero false) by (vm_compute; reflexivity).
  destruct (is_finite_SF a Ha) as [(s & ->) | (s & m & e & ->)].
  - destruct s; reflexivity.
  - unfold SF64sub, SFsub. cbv zeta. rewrite Z.sub_diag. reflexivity.
Qed.



(** ** No active region *)

Lemma features_loop_all_inactive scaleMap (features : list Feature) :
  (∀ feature, feature ∈ features →
     is_Some (assert_float64 (Properties feature !! "id")) ∧
     ¬ is_active scaleMap feature) →
  ∀ i b, for_range_from i (boundsOfFeature scaleMap) features b = Next b.
Proof.
  induction features as [| feature features IH]; intros Hall i b; [reflexivity |].
  destruct (Hall feature) as [Hid Hinactive]; [left |].
  rewrite for_range_from_cons, boundsOfFeature_inactive by done.
  rewrite exec_bind_next. apply IH. intros f Hf. apply Hall. right. exact Hf.
Qed.

(** The projection that the initial box induces: the center is (0, 0) and
    the scale factor is negative, -3.2, so both axes are mirrored. *)
Lemma screenPoint_initialBounds (env : Env) (lon lat : R) :
  math_Cos env 0%float = 1%float →
  screenPoint env initialBounds lon lat =
    ((float64_of lon - 0) * 1 * (-3.2) + 640, (0 - float64_of lat) * (-3.2) + 360)%float.
Proof.
  intros Hcos. unfold screenPoint.
  destruct float64_of_initialBounds as (-> & -> & -> & ->).
  unfold funcToScreen. cbv zeta.
  replace ((-90 + 90) / 2 * math_Pi / 180.0)%float with 0%float by (vm_compute; reflexivity).
  rewrite Hcos. reflexivity.
Qed.

(** C2 fails on the code: when no region is active (every region carries a
    numeric identifier and resolves to severity zero) [calculateBounds]
    returns the values it started from, longitudes 180..-180 and latitudes
    90..-90, an inverted box; nothing replaces it, and the projection derived
    from it has a negative scale factor: it mirrors both axes. *)
Theorem no_active_region_keeps_initial_bounds (fc : FeatureCollection)
    (scaleMap : gmap Z Z) :
  (∀ feature, feature ∈ Features fc →
     is_Some (assert_float64 (Properties feature !! "id")) ∧
     ¬ is_active scaleMap feature) →
  calculateBounds fc scaleMap = Next initialBounds ∧
  (maxLon initialBounds < minLon initialBounds)%R ∧
  (maxLat initialBounds < minLat initialBounds)%R ∧
  ∀ env lon lat,
    math_Cos env 0%float = 1%float →
    screenPoint env initialBounds lon lat =
      ((float64_of lon - 0) * 1 * (-3.2) + 640, (0 - float64_of lat) * (-3.2) + 360)%float.
Proof.
  intros Hall. split; [apply features_loop_all_inactive, Hall |].
  split; [simpl; lra |]. split; [simpl; lra |].
  intros env lon lat. apply screenPoint_initialBounds.
Qed.

(** The two sample regions under the empty table (the payload [[]]), with
    the cosine series for [math.Cos]. *)
Lemma no_active_region_example :
  calculateBounds two_regions ∅ = Next (mkBBox 180 90 (-180) (-90)) ∧
  (maxLon initialBounds < minLon initialBounds)%R ∧
  (maxLat initialBounds < minLat initialBounds)%R ∧
  ∀ lon lat,
    screenPoint (sample_env [] two_regions) initialBounds lon lat =
      ((float64_of lon - 0) * 1 * (-3.2) + 640, (0 - float64_of lat) * (-3.2) + 360)%float.
Proof.
  destruct (no_active_region_keeps_initial_bounds two_regions ∅)
    as (Hbox & Hlon & Hlat & Hscreen).
  - intros feature Hin. split.
    + apply (two_regions_well_formed ∅), Hin.
    + unfold is_active. destruct (assert_float64 _); [| tauto].
      unfold map_index. rewrite lookup_empty. simpl. tauto.
  - split; [exact Hbox |]. split; [exact Hlon |]. split; [exact Hlat |].
    intros lon lat. apply Hscreen. reflexivity.
Defined.

(** ** A region without a numeric identifier *)

Lemma boundsOfFeature_missing_id scaleMap b i feature :
  assert_float64 (Properties feature !! "id") = None →
  boundsOfFeature scaleMap b i feature = Panic.
Proof. intros H. unfold boundsOfFeature, type_assert_float64. rewrite H. reflexivity. Qed.

Lemma features_loop_missing_id scaleMap (features : list Feature) feature :
  feature ∈ features →
  assert_float64 (Properties feature !! "id") = None →
  ∀ i b, for_range_from i (boundsOfFeature scaleMap) features b = Panic.
Proof.
  intros Hin Hid. induction features as [| f features IH]; intros i b.
  - by apply elem_of_nil in Hin.
  - rewrite for_range_from_cons.
    pose proof (replies_boundsOfFeature (λ _, False) scaleMap b i f) as Hnoreply.
    destruct (decide (assert_float64 (Properties f !! "id") = None)) as [Hf | Hf].
    + rewrite boundsOfFeature_missing_id by done. reflexivity.
    + apply elem_of_cons in Hin as [-> | Hin]; [contradiction |].
      destruct (boundsOfFeature scaleMap b i f) as [b' | r0 |]; simpl in *;
        [apply IH, Hin | contradiction | reflexivity].
Qed.

Lemma drawFeature_missing_id env scaleMap b canvas i feature :
  assert_float64 (Properties feature !! "id") = None →
  drawFeature env scaleMap b canvas i feature =
    Reply (http_Error "Invalid ID format in GeoJSON" StatusInternalServerError).
Proof. intros H. unfold drawFeature. rewrite H. reflexivity. Qed.

(** C3 fails on the code: for a request that reaches the geometry, a feature
    whose identifier property is missing or not numeric makes
    [calculateBounds] panic on its unchecked type assertion, so the handler
    panics and writes no reply; the drawing loop, which would answer this
    very feature with the 500 "Invalid ID format in GeoJSON", is never
    entered. *)
Theorem missing_identifier_panics (env : Env) (r : Request) (scaleMap : gmap Z Z)
    (fc : FeatureCollection) (feature : Feature) :
  reaches_geometry env r scaleMap fc →
  feature ∈ Features fc →
  assert_float64 (Properties feature !! "id") = None →
  calculateBounds fc scaleMap = Panic ∧
  mapHandler env r = Panicked ∧
  ∀ b canvas i,
    drawFeature env scaleMap b canvas i feature =
      Reply (http_Error "Invalid ID format in GeoJSON" StatusInternalServerError).
Proof.
  intros Hreach Hin Hid.
  assert (calculateBounds fc scaleMap = Panic) as Hpanic.
  { apply (features_loop_missing_id scaleMap (Features fc) feature Hin Hid). }
  split; [exact Hpanic |]. split.
  - apply (mapHandler_bounds_panic env r scaleMap fc Hreach Hpanic).
  - intros b canvas i. apply drawFeature_missing_id, Hid.
Qed.

Lemma sample_reaches_geometry intensities scaleMap fc format :
  buildScaleMap intensities = Next scaleMap →
  reaches_geometry (sample_env intensities fc) (sample_request intensities format)
    scaleMap fc.
Proof.
  intros Htable. split.
  - rewrite sample_request_scale. apply payload_text_nonempty.
  - exists intensities, "japan". rewrite sample_request_scale, sample_env_unmarshal.
    split; [reflexivity |]. split; [exact Htable |]. split; reflexivity.
Qed.

(** A geometry file with one region that has no identifier, asked for with
    the empty payload. *)
Lemma missing_identifier_example :
  calculateBounds (mkFeatureCollection [unnamed_region (Some square)]) ∅ = Panic ∧
  mapHandler (sample_env [] (mkFeatureCollection [unnamed_region (Some square)]))
             (sample_request [] "svg") = Panicked ∧
  ∀ b canvas i,
    drawFeature (sample_env [] (mkFeatureCollection [unnamed_region (Some square)]))
                ∅ b canvas i (unnamed_region (Some square)) =
      Reply (http_Error "Invalid ID format in GeoJSON" StatusInternalServerError).
Proof.
  apply (missing_identifier_panics _ _ ∅ _ (unnamed_region (Some square))).
  - apply sample_reaches_geometry. reflexivity.
  - left.
  - reflexivity.
Defined.

(** ** Projection *)

(** [funcToScreen] with its constants evaluated: the inset width is 1024,
    the inset height 576, the center of the canvas (640, 360). *)
Lemma funcToScreen_eq (math_Cos : float → float) (minLon minLat maxLon maxLat lon lat : float) :
  funcToScreen math_Cos minLon minLat maxLon maxLat lon lat =
    (let centerLon := (maxLon + minLon) / 2 in
     let centerLat := (maxLat + minLat) / 2 in
     let lonCorrection := math_Cos (centerLat * math_Pi / 180) in
     let scale := Float64.min (1024 / ((maxLon - minLon) * lonCorrection))
                              (576 / (maxLat - minLat)) in
     ((lon - centerLon) * lonCorrection * scale + 640,
      (centerLat - lat) * scale + 360))%float.
Proof. reflexivity. Qed.





(** ** Drawing loop *)

Lemma appendRing_next env b paths i ring paths' :
  appendRing env b paths i ring = Next paths' → ∃ pathStr, paths' = paths ++ [pathStr].
Proof.
  unfold appendRing.
  destruct (for_range (ringPath_step env b) ring "M") as [pathStr | r0 |]; simpl;
    try discriminate.
  intros [= <-]. eauto.
Qed.

Lemma appendRing_loop_length env b (polygon : list (list (list R))) :
  ∀ i paths paths',
    for_range_from i (appendRing env b) polygon paths = Next paths' →
    length paths' = (length paths + length polygon)%nat.
Proof.
  induction polygon as [| ring polygon IH]; intros i paths paths' Hloop.
  - injection Hloop as <-. simpl. lia.
  - rewrite for_range_from_cons in Hloop.
    destruct (appendRing env b paths i ring) as [paths1 | r0 |] eqn:Hstep;
      simpl in Hloop; try discriminate.
    apply appendRing_next in Hstep as [pathStr ->].
    apply IH in Hloop. rewrite Hloop, length_app. simpl. lia.
Qed.

Lemma appendPolygon_loop_length env b (multiPolygon : list (list (list (list R)))) :
  ∀ i paths paths',
    for_range_from i (appendPolygon env b) multiPolygon paths = Next paths' →
    length paths' = (length paths + length (concat multiPolygon))%nat.
Proof.
  induction multiPolygon as [| polygon multiPolygon IH]; intros i paths paths' Hloop.
  - injection Hloop as <-. simpl. lia.
  - rewrite for_range_from_cons in Hloop.
    change (appendPolygon env b paths i polygon)
      with (for_range_from 0 (appendRing env b) polygon paths) in Hloop.
    destruct (for_range_from 0 (appendRing env b) polygon paths) as [paths1 | r0 |] eqn:Hpoly;
      simpl in Hloop; try discriminate.
    apply appendRing_loop_length in Hpoly. apply IH in Hloop.
    rewrite Hloop, Hpoly. simpl. rewrite length_app. lia.
Qed.

(** One closed path per ring. *)
Lemma featurePaths_length env b feature paths :
  featurePaths env b feature = Next paths → length paths = ring_count feature.
Proof.
  unfold featurePaths, ring_count.
  destruct (FeatureGeometry feature) as [[polygon | multiPolygon | t] |]; simpl;
    try discriminate.
  - intros H. apply appendRing_loop_length in H. exact H.
  - intros H. apply appendPolygon_loop_length in H. exact H.
  - intros [= <-]. reflexivity.
Qed.

Lemma drawFeature_next env scaleMap b canvas i feature canvas' :
  drawFeature env scaleMap b canvas i feature = Next canvas' →
  ∃ elem, canvas' = canvas ++ [elem] ∧ drawn env scaleMap b feature elem.
Proof.
  unfold drawFeature, drawn.
  destruct (assert_float64 _) as [id |]; [| discriminate].
  destruct (featurePaths env b feature) as [paths | r0 |] eqn:Hpaths; simpl;
    try discriminate.
  intros [= <-]. eexists. split; [reflexivity |].
  exists id, paths. repeat split. apply (featurePaths_length env b), Hpaths.
Qed.

(** The drawing loop appends one path element per region, in the order of
    the collection. *)
Lemma draw_loop env scaleMap b (features : list Feature) :
  ∀ i canvas canvas',
    for_range_from i (drawFeature env scaleMap b) features canvas = Next canvas' →
    ∃ elems, canvas' = canvas ++ elems ∧ Forall2 (drawn env scaleMap b) features elems.
Proof.
  induction features as [| feature features IH]; intros i canvas canvas' Hloop.
  - injection Hloop as <-. exists []. split; [by rewrite app_nil_r | constructor].
  - rewrite for_range_from_cons in Hloop.
    destruct (drawFeature env scaleMap b canvas i feature) as [canvas1 | r0 |] eqn:Hstep;
      simpl in Hloop; try discriminate.
    apply drawFeature_next in Hstep as (elem & -> & Hdrawn).
    apply IH in Hloop as (elems & -> & Hall).
    exists (elem :: elems). split; [by rewrite <- app_assoc | by constructor].
Qed.

Lemma drawn_path_elements env scaleMap b (features : list Feature) elems :
  Forall2 (drawn env scaleMap b) features elems → path_elements elems = elems.
Proof.
  unfold path_elements. induction 1 as [| feature elem features elems Hd _ IH]; [reflexivity |].
  destruct Hd as (id & paths & _ & _ & _ & ->).
  rewrite filter_cons_True by done. rewrite IH. reflexivity.
Qed.

Lemma scene_path_elements env scaleMap b (features : list Feature) elems :
  Forall2 (drawn env scaleMap b) features elems →
  path_elements (blankCanvas ++ elems ++ [SvgEnd]) = elems.
Proof.
  intros Hall. unfold path_elements. rewrite !filter_app.
  fold (path_elements elems). rewrite (drawn_path_elements _ _ _ _ _ Hall).
  unfold blankCanvas.
  rewrite filter_cons_False by (simpl; tauto).
  rewrite filter_cons_False by (simpl; tauto).
  rewrite filter_nil.
  rewrite filter_cons_False by (simpl; tauto).
  rewrite filter_nil. simpl. apply app_nil_r.
Qed.

(** What a vector reply tells about the run that produced it. *)
Lemma mapHandler_svg_inv env r scaleMap fc doc :
  reaches_geometry env r scaleMap fc →
  mapHandler env r = Responded (mkResponse StatusOK "image/svg+xml" (Svg doc)) →
  ∃ b canvas,
    calculateBounds fc scaleMap = Next b ∧
    for_range (drawFeature env scaleMap b) (Features fc) blankCanvas = Next canvas ∧
    doc = canvas ++ [SvgEnd].
Proof.
  intros (H & intensities & data & Hjson & Htable & Hfile & Hfc).
  unfold mapHandler. rewrite bool_decide_eq_false_2 by done.
  rewrite Hjson. simpl. rewrite Htable. simpl. rewrite Hfile. simpl.
  rewrite Hfc. simpl.
  pose proof (calculateBounds_replies (λ _, False) fc scaleMap) as Hb.
  destruct (calculateBounds fc scaleMap) as [b | r0 |]; simpl in *; [| done | discriminate].
  pose proof (replies_for_range _ _ (replies_drawFeature env scaleMap b)
                (Features fc) blankCanvas) as Hdraw.
  destruct (for_range (drawFeature env scaleMap b) (Features fc) blankCanvas)
    as [canvas | r0 |] eqn:Hloop; simpl in *;
    [| subst r0; discriminate | discriminate].
  case_bool_decide as Hfmt; simpl.
  - intros [= <-]. exists b, canvas. repeat split. exact Hloop.
  - destruct (svgToPNG env _ _ _ _); simpl; discriminate.
Qed.

Lemma ringPath_step_total env b pathStr i coord :
  is_Some (point_of coord) → ∃ pathStr', ringPath_step env b pathStr i coord = Next pathStr'.
Proof.
  intros [p Hp]. unfold ringPath_step, index. unfold point_of in Hp.
  destruct (coord !! 0%nat) as [lon |]; [| discriminate].
  destruct (coord !! 1%nat) as [lat |]; [| discriminate]. simpl.
  destruct (screenPoint env b lon lat) as [x y]. destruct i; by eexists.
Qed.

Lemma ring_loop_total env b (ring : list (list R)) :
  Forall (λ coord, is_Some (point_of coord)) ring →
  ∀ i pathStr, ∃ pathStr', for_range_from i (ringPath_step env b) ring pathStr = Next pathStr'.
Proof.
  induction 1 as [| coord ring Hp _ IH]; intros i pathStr; [by eexists |].
  rewrite for_range_from_cons.
  destruct (ringPath_step_total env b pathStr i coord Hp) as [pathStr1 ->].
  apply IH.
Qed.

Lemma appendRing_total env b paths i ring :
  Forall (λ coord, is_Some (point_of coord)) ring →
  ∃ paths', appendRing env b paths i ring = Next paths'.
Proof.
  intros Hring. unfold appendRing, for_range.
  destruct (ring_loop_total env b ring Hring 0%nat "M") as [pathStr ->]. by eexists.
Qed.

Lemma featurePaths_drawFeature env scaleMap b canvas i feature id paths :
  assert_float64 (Properties feature !! "id") = Some id →
  featurePaths env b feature = Next paths →
  ∃ canvas', drawFeature env scaleMap b canvas i feature = Next canvas'.
Proof. intros Hid Hpaths. unfold drawFeature. rewrite Hid, Hpaths. by eexists. Qed.

Lemma appendRing_loop_total env b (polygon : list (list (list R))) :
  Forall (λ coord, is_Some (point_of coord)) (concat polygon) →
  ∀ i paths, ∃ paths', for_range_from i (appendRing env b) polygon paths = Next paths'.
Proof.
  induction polygon as [| ring polygon IH]; intros Hall i paths; [by eexists |].
  simpl in Hall. apply Forall_app in Hall as [Hring Hrest].
  rewrite for_range_from_cons.
  destruct (appendRing_total env b paths i ring Hring) as [paths1 ->].
  apply (IH Hrest).
Qed.

Lemma appendPolygon_loop_total env b (multiPolygon : list (list (list (list R)))) :
  Forall (λ coord, is_Some (point_of coord)) (concat (concat multiPolygon)) →
  ∀ i paths, ∃ paths', for_range_from i (appendPolygon env b) multiPolygon paths = Next paths'.
Proof.
  induction multiPolygon as [| polygon multiPolygon IH]; intros Hall i paths; [by eexists |].
  simpl in Hall. rewrite concat_app in Hall. apply Forall_app in Hall as [Hpoly Hrest].
  rewrite for_range_from_cons.
  change (appendPolygon env b paths i polygon)
    with (for_range_from 0 (appendRing env b) polygon paths).
  destruct (appendRing_loop_total env b polygon Hpoly 0%nat paths) as [paths1 ->]. simpl.
  apply (IH Hrest).
Qed.

Lemma featurePaths_total env b feature g :
  FeatureGeometry feature = Some g → has_positions g →
  ∃ paths, featurePaths env b feature = Next paths.
Proof.
  intros Hg Hpos. unfold featurePaths. rewrite Hg. simpl. unfold has_positions in Hpos.
  destruct g as [polygon | multiPolygon | t]; simpl in *.
  - apply appendRing_loop_total, Hpos.
  - apply appendPolygon_loop_total, Hpos.
  - by eexists.
Qed.

(** On a drawable collection the drawing loop runs to its end. *)
Lemma draw_loop_total env scaleMap b (features : list Feature) :
  (∀ feature, feature ∈ features →
     is_Some (assert_float64 (Properties feature !! "id")) ∧
     ∃ g, FeatureGeometry feature = Some g ∧ has_positions g) →
  ∀ i canvas, ∃ canvas',
    for_range_from i (drawFeature env scaleMap b) features canvas = Next canvas'.
Proof.
  induction features as [| feature features IH]; intros Hd i canvas; [by eexists |].
  destruct (Hd feature) as [[id Hid] (g & Hg & Hpos)]; [left |].
  rewrite for_range_from_cons.
  destruct (featurePaths_total env b feature g Hg Hpos) as [paths Hpaths].
  destruct (featurePaths_drawFeature env scaleMap b canvas i feature id paths Hid Hpaths)
    as [canvas1 ->].
  apply IH. intros f Hf. apply Hd. right. exact Hf.
Qed.

(** The scene of a vector reply: the blank canvas, one path element per
    region in the order of the collection, the closing tag. *)
Lemma svg_scene env r scaleMap fc doc :
  reaches_geometry env r scaleMap fc →
  mapHandler env r = Responded (mkResponse StatusOK "image/svg+xml" (Svg doc)) →
  ∃ b elems,
    calculateBounds fc scaleMap = Next b ∧
    doc = blankCanvas ++ elems ++ [SvgEnd] ∧
    Forall2 (drawn env scaleMap b) (Features fc) elems.
Proof.
  intros Hreach Hsvg.
  destruct (mapHandler_svg_inv env r scaleMap fc doc Hreach Hsvg)
    as (b & canvas & Hb & Hloop & ->).
  apply draw_loop in Hloop as (elems & -> & Hall).
  exists b, elems. split; [exact Hb |]. split; [by rewrite <- app_assoc | exact Hall].
Qed.

Lemma finalPath_nil : finalPath [] = "".
Proof. reflexivity. Qed.

(** The request for the point region under the empty payload, evaluated. *)
Lemma point_region_scene :
  mapHandler (sample_env [] point_region) (sample_request [] "svg") =
    Responded (mkResponse StatusOK "image/svg+xml"
      (Svg [SvgStart 1280 720;
            SvgRect 0 0 1280 720 "fill:#18181b";
            SvgPath "" "fill:#27272a;stroke:#a1a1aa;stroke-width:0.2;fill-opacity:0.8";
            SvgEnd])).
Proof.
  rewrite (mapHandler_svg _ _ ∅ point_region initialBounds
             (blankCanvas ++
              [SvgPath "" "fill:#27272a;stroke:#a1a1aa;stroke-width:0.2;fill-opacity:0.8"])).
  - reflexivity.
  - apply sample_reaches_geometry. reflexivity.
  - apply features_loop_all_inactive. intros feature Hin.
    apply list_elem_of_singleton in Hin as ->. split.
    + rewrite sample_region_id. eauto.
    + rewrite sample_region_active. unfold map_index. rewrite lookup_empty. simpl. tauto.
  - unfold for_range, point_region. simpl Features.
    rewrite for_range_from_cons. unfold drawFeature.
    rewrite sample_region_id. unfold scaleValue. rewrite lookup_empty. reflexivity.
  - apply sample_request_format.
Qed.

(** C4, as the specification states it, fails on a region whose geometry is
    a point: the region has no ring, yet the scene holds a path element for
    it, with empty path data. The scene has one path element where the
    specification counts none. *)
Lemma point_region_is_drawn :
  mapHandler (sample_env [] point_region) (sample_request [] "svg") =
    Responded (mkResponse StatusOK "image/svg+xml"
      (Svg [SvgStart 1280 720;
            SvgRect 0 0 1280 720 "fill:#18181b";
            SvgPath "" "fill:#27272a;stroke:#a1a1aa;stroke-width:0.2;fill-opacity:0.8";
            SvgEnd])) ∧
  count_paths [SvgStart 1280 720;
               SvgRect 0 0 1280 720 "fill:#18181b";
               SvgPath "" "fill:#27272a;stroke:#a1a1aa;stroke-width:0.2;fill-opacity:0.8";
               SvgEnd] = 1%nat ∧
  length (filter (λ feature, ring_count feature ≠ 0%nat) (Features point_region)) = 0%nat.
Proof. split; [apply point_region_scene | split; reflexivity]. Qed.

(** C4 (amended): every request with [format=svg] that reaches a drawable
    geometry is answered with the vector scene, and the scene contains
    exactly one path element per region of the collection, in the order of
    the collection, whatever the geometry of the region; a region without
    rings (an unsupported geometry type, say) contributes a path element
    whose path data is empty. *)
Theorem svg_one_path_per_feature (env : Env) (r : Request) (scaleMap : gmap Z Z)
    (fc : FeatureCollection) :
  reaches_geometry env r scaleMap fc →
  Values_Get (Query r) "format" = "svg" →
  drawable fc →
  ∃ doc,
    mapHandler env r = Responded (mkResponse StatusOK "image/svg+xml" (Svg doc)) ∧
    count_paths doc = length (Features fc) ∧
    ∀ i feature,
      Features fc !! i = Some feature →
      ∃ d style,
        path_elements doc !! i = Some (SvgPath d style) ∧
        (ring_count feature = 0%nat → d = "").
Proof.
  intros Hreach Hformat Hd.
  destruct (calculateBounds_total fc scaleMap Hd) as [b0 Hb0].
  destruct (draw_loop_total env scaleMap b0 (Features fc) Hd 0%nat blankCanvas)
    as [canvas Hcanvas].
  pose proof (mapHandler_svg env r scaleMap fc b0 canvas Hreach Hb0 Hcanvas Hformat) as Hsvg.
  exists (canvas ++ [SvgEnd]). split; [exact Hsvg |].
  destruct (svg_scene env r scaleMap fc _ Hreach Hsvg) as (b & elems & _ & Hdoc & Hall).
  rewrite Hdoc.
  unfold count_paths. rewrite (scene_path_elements _ _ _ _ _ Hall). split.
  - symmetry. apply (Forall2_length _ _ _ Hall).
  - intros i feature Hi.
    destruct (Forall2_lookup_l _ _ _ _ _ Hall Hi) as (elem & Helem & Hdrawn).
    destruct Hdrawn as (id & paths & _ & _ & Hlen & ->).
    eexists _, _. split; [exact Helem |].
    intros Hzero. rewrite Hzero in Hlen. apply nil_length_inv in Hlen as ->. reflexivity.
Qed.

(** The point region again: one region, one path element, empty data. *)
Lemma svg_one_path_per_feature_example :
  ∃ doc,
    mapHandler (sample_env [] point_region) (sample_request [] "svg") =
      Responded (mkResponse StatusOK "image/svg+xml" (Svg doc)) ∧
    count_paths doc = length (Features point_region) ∧
    ∀ i feature,
      Features point_region !! i = Some feature →
      ∃ d style,
        path_elements doc !! i = Some (SvgPath d style) ∧
        (ring_count feature = 0%nat → d = "").
Proof.
  apply (svg_one_path_per_feature (sample_env [] point_region) (sample_request [] "svg")
           ∅ point_region).
  - apply sample_reaches_geometry. reflexivity.
  - apply sample_request_format.
  - intros feature Hin. apply list_elem_of_singleton in Hin as ->. split.
    + rewrite sample_region_id. eauto.
    + eexists. split; [reflexivity |]. constructor.
Defined.

(** ** Determinism *)

Lemma for_range_from_ext {A St : Type} (body1 body2 : St → nat → A → exec St) :
  (∀ s i x, body1 s i x = body2 s i x) →
  ∀ xs i s, for_range_from i body1 xs s = for_range_from i body2 xs s.
Proof.
  intros Hext xs. induction xs as [| x xs IH]; intros i s; [reflexivity |].
  rewrite !for_range_from_cons, Hext.
  destruct (body2 s i x) as [s' | r0 |]; simpl; [apply IH | reflexivity | reflexivity].
Qed.

Lemma screenPoint_ext env1 env2 b lon lat :
  (∀ x, math_Cos env1 x = math_Cos env2 x) →
  screenPoint env1 b lon lat = screenPoint env2 b lon lat.
Proof.
  intros Hcos. unfold screenPoint. rewrite !funcToScreen_eq. cbv zeta.
  rewrite Hcos. reflexivity.
Qed.

Lemma appendRing_ext env1 env2 b :
  (∀ x, Sprintf_f1 env1 x = Sprintf_f1 env2 x) →
  (∀ x, math_Cos env1 x = math_Cos env2 x) →
  ∀ paths i ring, appendRing env1 b paths i ring = appendRing env2 b paths i ring.
Proof.
  intros Hfmt Hcos paths i ring. unfold appendRing, for_range.
  rewrite (for_range_from_ext (ringPath_step env1 b) (ringPath_step env2 b)); [reflexivity |].
  intros s j coord. unfold ringPath_step.
  destruct (index coord 0) as [lon | |]; [| reflexivity | reflexivity].
  rewrite !exec_bind_next.
  destruct (index coord 1) as [lat | |]; [| reflexivity | reflexivity].
  rewrite !exec_bind_next, (screenPoint_ext env1 env2 b lon lat Hcos).
  destruct (screenPoint env2 b lon lat) as [x y]. rewrite !Hfmt. reflexivity.
Qed.

Lemma drawFeature_ext env1 env2 scaleMap b :
  (∀ x, Sprintf_f1 env1 x = Sprintf_f1 env2 x) →
  (∀ x, math_Cos env1 x = math_Cos env2 x) →
  ∀ canvas i feature,
    drawFeature env1 scaleMap b canvas i feature = drawFeature env2 scaleMap b canvas i feature.
Proof.
  intros Hfmt Hcos canvas i feature. unfold drawFeature.
  destruct (assert_float64 _) as [id |]; [| reflexivity].
  assert (featurePaths env1 b feature = featurePaths env2 b feature) as ->; [| reflexivity].
  unfold featurePaths.
  destruct (deref (FeatureGeometry feature)) as [[polygon | multiPolygon | t] | |]; simpl;
    try reflexivity.
  - apply for_range_from_ext, appendRing_ext; assumption.
  - apply for_range_from_ext. intros paths j polygon. unfold appendPolygon.
    apply for_range_from_ext, appendRing_ext; assumption.
Qed.

(** C9: two runs of the handler that ask for the vector scene with the same
    [scale] payload, over the same geometry file and with libraries that
    decode, format and compute the cosine alike, leave the same reply,
    whatever else differs
    between them (the caption, the raster collaborator): the reply is a
    function of the payload and of the feature collection. In a vector reply
    the path elements follow the order of the collection, and each carries
    the path of its region and the color of the severity the table resolves
    for it. *)
Theorem svg_output_deterministic (env1 env2 : Env) (r1 r2 : Request) :
  Values_Get (Query r1) "scale" = Values_Get (Query r2) "scale" →
  Values_Get (Query r1) "format" = "svg" →
  Values_Get (Query r2) "format" = "svg" →
  json_Unmarshal env1 (Values_Get (Query r1) "scale") =
    json_Unmarshal env2 (Values_Get (Query r1) "scale") →
  os_ReadFile env1 "japan.geojson" = os_ReadFile env2 "japan.geojson" →
  (∀ data, UnmarshalFeatureCollection env1 data = UnmarshalFeatureCollection env2 data) →
  (∀ x, Sprintf_f1 env1 x = Sprintf_f1 env2 x) →
  (∀ x, math_Cos env1 x = math_Cos env2 x) →
  mapHandler env1 r1 = mapHandler env2 r2 ∧
  ∀ scaleMap fc doc,
    reaches_geometry env1 r1 scaleMap fc →
    mapHandler env1 r1 = Responded (mkResponse StatusOK "image/svg+xml" (Svg doc)) →
    ∃ b elems,
      calculateBounds fc scaleMap = Next b ∧
      doc = blankCanvas ++ elems ++ [SvgEnd] ∧
      Forall2 (drawn env1 scaleMap b) (Features fc) elems.
Proof.
  intros Hscale Hf1 Hf2 Hjson Hfile Hdec Hfmt Hcos. split.
  - unfold mapHandler. rewrite <- Hscale, Hf1, Hf2, <- Hjson, <- Hfile.
    case_bool_decide; [reflexivity |].
    destruct (json_Unmarshal env1 _) as [err | intensities]; simpl; [reflexivity |].
    destruct (buildScaleMap intensities) as [scaleMap | r0 |]; simpl; try reflexivity.
    destruct (os_ReadFile env1 _) as [err | data]; simpl; [reflexivity |].
    rewrite <- Hdec.
    destruct (UnmarshalFeatureCollection env1 data) as [err | fc]; simpl; [reflexivity |].
    destruct (calculateBounds fc scaleMap) as [b | r0 |]; simpl; try reflexivity.
    unfold for_range.
    rewrite (for_range_from_ext _ _ (drawFeature_ext env1 env2 scaleMap b Hfmt Hcos)).
    destruct (for_range_from 0 (drawFeature env2 scaleMap b) (Features fc) blankCanvas)
      as [canvas | r0 |]; simpl; reflexivity.
  - intros scaleMap fc doc. apply svg_scene.
Qed.

(** Two requests for the scene of the two sample regions, one of them with a
    caption. *)
Lemma svg_output_deterministic_example :
  mapHandler (sample_env [mkIntensityQuery 1 3] two_regions)
             (sample_request [mkIntensityQuery 1 3] "svg") =
  mapHandler (sample_env [mkIntensityQuery 1 3] two_regions)
             (mkRequest (<["footer" := ["caption"]]>
                (Query (sample_request [mkIntensityQuery 1 3] "svg")))) ∧
  ∀ scaleMap fc doc,
    reaches_geometry (sample_env [mkIntensityQuery 1 3] two_regions)
      (sample_request [mkIntensityQuery 1 3] "svg") scaleMap fc →
    mapHandler (sample_env [mkIntensityQuery 1 3] two_regions)
      (sample_request [mkIntensityQuery 1 3] "svg") =
      Responded (mkResponse StatusOK "image/svg+xml" (Svg doc)) →
    ∃ b elems,
      calculateBounds fc scaleMap = Next b ∧
      doc = blankCanvas ++ elems ++ [SvgEnd] ∧
      Forall2 (drawn (sample_env [mkIntensityQuery 1 3] two_regions) scaleMap b)
        (Features fc) elems.
Proof.
  apply svg_output_deterministic.
  - simpl Query at 2. rewrite Values_Get_other by discriminate. reflexivity.
  - apply sample_request_format.
  - simpl Query at 1. rewrite Values_Get_other by discriminate.
    apply sample_request_format.
  - reflexivity.
  - reflexivity.
  - reflexivity.
  - reflexivity.
  - reflexivity.
Defined.

(** ** A complete run *)

Lemma sample_ringPath_step intensities fc b pathStr i (lon lat : R) :
  ringPath_step (sample_env intensities fc) b pathStr i [lon; lat] =
    Next (pathStr +:+ match i with
                      | O => "0.0 0.0"
                      | _ => " L0.0 0.0"
                      end).
Proof.
  unfold ringPath_step, index. simpl.
  destruct (screenPoint (sample_env intensities fc) b lon lat) as [x y].
  destruct i; reflexivity.
Qed.

Lemma sample_drawFeature env scaleMap b canvas i id g paths :
  featurePaths env b (sample_region id (Some g)) = Next paths →
  drawFeature env scaleMap b canvas i (sample_region id (Some g)) =
    Next (canvas ++ [SvgPath (finalPath paths)
                       (pathStyle (intensityToColor (default 0 (scaleMap !! id))))]).
Proof.
  intros Hpaths. unfold drawFeature. rewrite sample_region_id, Hpaths.
  unfold scaleValue. rewrite float64_to_int_IZR.
  destruct (scaleMap !! id); reflexivity.
Qed.

Lemma sample_square_paths intensities fc b id :
  featurePaths (sample_env intensities fc) b (sample_region id (Some square)) =
    Next ["M0.0 0.0 L0.0 0.0 L0.0 0.0 L0.0 0.0 L0.0 0.0 Z"].
Proof.
  unfold featurePaths, square, for_range. simpl FeatureGeometry. simpl deref.
  rewrite exec_bind_next, for_range_from_cons. unfold appendRing, for_range.
  rewrite !for_range_from_cons, !sample_ringPath_step. reflexivity.
Qed.

Lemma sample_triangle_paths intensities fc b id :
  featurePaths (sample_env intensities fc) b (sample_region id (Some triangle)) =
    Next ["M0.0 0.0 L0.0 0.0 L0.0 0.0 L0.0 0.0 Z"].
Proof.
  unfold featurePaths, triangle, for_range. simpl FeatureGeometry. simpl deref.
  rewrite exec_bind_next, for_range_from_cons. unfold appendPolygon, for_range.
  rewrite for_range_from_cons. unfold appendRing, for_range.
  rewrite !for_range_from_cons, !sample_ringPath_step. reflexivity.
Qed.

(** The scene of the two sample regions with region 1 at severity 3: two
    path elements in the order of the collection, the first filled with the
    color of severity 3, the second with the color of severity 0; each path
    starts with a move, continues with lines and is closed. (The sample
    formatter prints every number as 0.0.) *)
Example two_regions_scene :
  mapHandler (sample_env [mkIntensityQuery 1 3] two_regions)
             (sample_request [mkIntensityQuery 1 3] "svg") =
    Responded (mkResponse StatusOK "image/svg+xml"
      (Svg [SvgStart 1280 720;
            SvgRect 0 0 1280 720 "fill:#18181b";
            SvgPath "M0.0 0.0 L0.0 0.0 L0.0 0.0 L0.0 0.0 L0.0 0.0 Z "
                    "fill:#facc15;stroke:#a1a1aa;stroke-width:0.2;fill-opacity:0.8";
            SvgPath "M0.0 0.0 L0.0 0.0 L0.0 0.0 L0.0 0.0 Z "
                    "fill:#27272a;stroke:#a1a1aa;stroke-width:0.2;fill-opacity:0.8";
            SvgEnd])).
Proof.
  set (b := mkBBox 130 30 140 40).
  rewrite (mapHandler_svg _ _ {[1 := 3]} two_regions b
             (blankCanvas ++
              [SvgPath "M0.0 0.0 L0.0 0.0 L0.0 0.0 L0.0 0.0 L0.0 0.0 Z "
                       "fill:#facc15;stroke:#a1a1aa;stroke-width:0.2;fill-opacity:0.8";
               SvgPath "M0.0 0.0 L0.0 0.0 L0.0 0.0 L0.0 0.0 Z "
                       "fill:#27272a;stroke:#a1a1aa;stroke-width:0.2;fill-opacity:0.8"])).
  - reflexivity.
  - apply sample_reaches_geometry. reflexivity.
  - apply two_regions_bounds.
  - unfold for_range, two_regions. simpl Features.
    rewrite for_range_from_cons.
    rewrite (sample_drawFeature _ _ _ _ _ _ _ _ (sample_square_paths _ _ b 1)).
    rewrite exec_bind_next, for_range_from_cons.
    rewrite (sample_drawFeature _ _ _ _ _ _ _ _ (sample_triangle_paths _ _ b 2)).
    rewrite lookup_singleton_eq, lookup_singleton_ne by lia. reflexivity.
  - apply sample_request_format.
Qed.

(** * Further properties of the code *)

(** ** Bounding box: what a returned box tells *)

Lemma exec_bind_next_inv {A B : Type} (m : exec A) (k : A → exec B) (b : B) :
  m ≫= k = Next b → ∃ a, m = Next a ∧ k a = Next b.
Proof. destruct m as [a | r0 |]; simpl; [eauto | discriminate | discriminate]. Qed.

Lemma expandBounds_next b i coord b' :
  expandBounds b i coord = Next b' → ∃ p, point_of coord = Some p ∧ b' = extend b p.
Proof.
  unfold expandBounds, index, point_of.
  destruct (coord !! 0%nat) as [lon |]; [| discriminate].
  destruct (coord !! 1%nat) as [lat |]; [| discriminate]. simpl.
  intros [= <-]. exists (lon, lat). split; reflexivity.
Qed.

Lemma ring_loop_inv (ring : list (list R)) :
  ∀ i b b', for_range_from i expandBounds ring b = Next b' →
            b' = fold_left extend (omap point_of ring) b.
Proof.
  induction ring as [| coord ring IH]; intros i b b' Hloop.
  - injection Hloop as <-. reflexivity.
  - rewrite for_range_from_cons in Hloop.
    apply exec_bind_next_inv in Hloop as (b1 & Hstep & Hrest).
    apply expandBounds_next in Hstep as (p & Hp & ->).
    apply IH in Hrest. simpl. rewrite Hp. exact Hrest.
Qed.

Lemma polygon_loop_inv (polygon : list (list (list R))) :
  ∀ i b b', for_range_from i boundsOfRing polygon b = Next b' →
            b' = fold_left extend (omap point_of (concat polygon)) b.
Proof.
  induction polygon as [| ring polygon IH]; intros i b b' Hloop.
  - injection Hloop as <-. reflexivity.
  - rewrite for_range_from_cons, boundsOfRing_unfold in Hloop.
    apply exec_bind_next_inv in Hloop as (b1 & Hring & Hrest).
    apply ring_loop_inv in Hring as ->. apply IH in Hrest.
    simpl. rewrite omap_app, fold_left_app. exact Hrest.
Qed.

Lemma multiPolygon_loop_inv (multiPolygon : list (list (list (list R)))) :
  ∀ i b b', for_range_from i boundsOfPolygon multiPolygon b = Next b' →
            b' = fold_left extend (omap point_of (concat (concat multiPolygon))) b.
Proof.
  induction multiPolygon as [| polygon multiPolygon IH]; intros i b b' Hloop.
  - injection Hloop as <-. reflexivity.
  - rewrite for_range_from_cons, boundsOfPolygon_unfold in Hloop.
    apply exec_bind_next_inv in Hloop as (b1 & Hpoly & Hrest).
    apply polygon_loop_inv in Hpoly as ->. apply IH in Hrest.
    simpl. rewrite concat_app, omap_app, fold_left_app. exact Hrest.
Qed.

(** A feature that the loop gets past: it has a numeric identifier, and it
    is inactive and leaves the box alone, or it is active and extends the
    box by its points. *)
Lemma boundsOfFeature_next scaleMap b i feature b' :
  boundsOfFeature scaleMap b i feature = Next b' →
  is_Some (assert_float64 (Properties feature !! "id")) ∧
  ((¬ is_active scaleMap feature ∧ b' = b) ∨
   (is_active scaleMap feature ∧ b' = fold_left extend (feature_points feature) b)).
Proof.
  unfold boundsOfFeature, type_assert_float64, is_active, feature_points.
  destruct (assert_float64 _) as [id |]; simpl; [| discriminate].
  case_bool_decide as Hzero.
  - intros [= <-]. split; [eauto |]. left. split; [| reflexivity]. intros H. by apply H.
  - intros Hloop. split; [eauto |]. right. split; [exact Hzero |].
    destruct (FeatureGeometry feature) as [[polygon | multiPolygon | t] |]; simpl in *;
      try discriminate.
    + apply polygon_loop_inv in Hloop. exact Hloop.
    + apply multiPolygon_loop_inv in Hloop. exact Hloop.
    + injection Hloop as <-. reflexivity.
Qed.

Lemma features_loop_inv scaleMap (features : list Feature) :
  ∀ i b b', for_range_from i (boundsOfFeature scaleMap) features b = Next b' →
    b' = fold_left extend
           (feature ← filter (is_active scaleMap) features; feature_points feature) b ∧
    Forall (λ feature, is_Some (assert_float64 (Properties feature !! "id"))) features.
Proof.
  induction features as [| feature features IH]; intros i b b' Hloop.
  - injection Hloop as <-. split; [reflexivity | constructor].
  - rewrite for_range_from_cons in Hloop.
    apply exec_bind_next_inv in Hloop as (b1 & Hstep & Hrest).
    apply boundsOfFeature_next in Hstep as [Hid [[Hinactive ->] | [Hactive ->]]];
      apply IH in Hrest as [-> Hids]; (split; [| by constructor]).
    + rewrite filter_cons_False by done. reflexivity.
    + rewrite filter_cons_True by done. simpl. rewrite fold_left_app. reflexivity.
Qed.

(** Whenever [calculateBounds] returns, its box is the fold of the min/max
    step over the points of the active regions. *)
Lemma calculateBounds_inv fc scaleMap b :
  calculateBounds fc scaleMap = Next b →
  b = fold_left extend (active_points fc scaleMap) initialBounds.
Proof. intros H. apply features_loop_inv in H as [-> _]. reflexivity. Qed.

(** X2: on any data, a box that [calculateBounds] returns never lies beyond
    the values the loop starts from: its west side is at most 180, its south
    side at most 90, its east side at least -180, its north side at least
    -90. *)
Theorem calculateBounds_within_initial_values (fc : FeatureCollection)
    (scaleMap : gmap Z Z) (b : BBox) :
  calculateBounds fc scaleMap = Next b →
  (minLon b <= 180)%R ∧ (minLat b <= 90)%R ∧ (-180 <= maxLon b)%R ∧ (-90 <= maxLat b)%R.
Proof.
  intros Hb. apply calculateBounds_inv in Hb as ->.
  apply (fold_extend_shrinks (active_points fc scaleMap) initialBounds).
Qed.

Lemma calculateBounds_within_initial_values_example :
  (minLon (mkBBox 130 30 140 40) <= 180)%R ∧ (minLat (mkBBox 130 30 140 40) <= 90)%R ∧
  (-180 <= maxLon (mkBBox 130 30 140 40))%R ∧ (-90 <= maxLat (mkBBox 130 30 140 40))%R.
Proof.
  apply (calculateBounds_within_initial_values two_regions {[1 := 3]}).
  apply two_regions_bounds.
Defined.

(** X3: on any data, when [calculateBounds] returns and some active region
    has a point, the box is ordered (minLon <= maxLon, minLat <= maxLat) and
    every point of every active region lies inside it. *)
Theorem calculateBounds_ordered (fc : FeatureCollection) (scaleMap : gmap Z Z) (b : BBox) :
  calculateBounds fc scaleMap = Next b →
  active_points fc scaleMap ≠ [] →
  (minLon b <= maxLon b)%R ∧ (minLat b <= maxLat b)%R ∧
  ∀ p, p ∈ active_points fc scaleMap →
       (minLon b <= p.1 <= maxLon b)%R ∧ (minLat b <= p.2 <= maxLat b)%R.
Proof.
  intros Hb Hne. apply calculateBounds_inv in Hb as ->.
  assert (∀ p, p ∈ active_points fc scaleMap →
     (minLon (fold_left extend (active_points fc scaleMap) initialBounds) <= p.1
        <= maxLon (fold_left extend (active_points fc scaleMap) initialBounds))%R ∧
     (minLat (fold_left extend (active_points fc scaleMap) initialBounds) <= p.2
        <= maxLat (fold_left extend (active_points fc scaleMap) initialBounds))%R) as Hin.
  { intros p Hp. apply (fold_extend_contains _ initialBounds p Hp). }
  destruct (active_points fc scaleMap) as [| q pts] eqn:Hpts; [done |].
  destruct (Hin q) as [Hlon Hlat]; [left |].
  split; [lra |]. split; [lra | exact Hin].
Qed.

Lemma calculateBounds_ordered_example :
  (minLon (mkBBox 130 30 140 40) <= maxLon (mkBBox 130 30 140 40))%R ∧
  (minLat (mkBBox 130 30 140 40) <= maxLat (mkBBox 130 30 140 40))%R ∧
  ∀ p, p ∈ active_points two_regions {[1 := 3]} →
       (minLon (mkBBox 130 30 140 40) <= p.1 <= maxLon (mkBBox 130 30 140 40))%R ∧
       (minLat (mkBBox 130 30 140 40) <= p.2 <= maxLat (mkBBox 130 30 140 40))%R.
Proof.
  apply (calculateBounds_ordered two_regions {[1 := 3]}).
  - apply two_regions_bounds.
  - rewrite two_regions_active_points. discriminate.
Defined.

(** X4: [calculateBounds] reads the table only through the test
    [scaleMap[id] == 0]: two tables that give a nonzero severity to the same
    identifiers yield the same result, whatever the severities are. *)
Theorem calculateBounds_activity_only (fc : FeatureCollection) (m1 m2 : gmap Z Z) :
  (∀ id, map_index m1 id = 0 ↔ map_index m2 id = 0) →
  calculateBounds fc m1 = calculateBounds fc m2.
Proof.
  intros Hsame. unfold calculateBounds, for_range. apply for_range_from_ext.
  intros b i feature. unfold boundsOfFeature.
  destruct (type_assert_float64 _) as [id | r0 |]; simpl; try reflexivity.
  rewrite (bool_decide_ext _ _ (Hsame (float64_to_int id))). reflexivity.
Qed.

Lemma calculateBounds_activity_only_example :
  calculateBounds two_regions {[1 := 3]} = calculateBounds two_regions {[1 := 7]}.
Proof.
  apply calculateBounds_activity_only. intros id. unfold map_index.
  destruct (decide (id = 1)) as [-> | Hne].
  - rewrite !lookup_singleton_eq. simpl. split; discriminate.
  - rewrite !lookup_singleton_ne by done. reflexivity.
Defined.

(** ** Loops over nested slices *)

Lemma for_range_from_shift {A St : Type} (body : St → nat → A → exec St) :
  (∀ s i j x, body s i x = body s j x) →
  ∀ xs i j s, for_range_from i body xs s = for_range_from j body xs s.
Proof.
  intros Hirr xs. induction xs as [| x xs IH]; intros i j s; [reflexivity |].
  rewrite !for_range_from_cons, (Hirr s i j x).
  destruct (body s j x) as [s' | r0 |]; simpl; [apply IH | reflexivity | reflexivity].
Qed.

(** A loop over the inner slices of a slice of slices is the loop over their
    concatenation, when the body does not look at the index. *)
Lemma for_range_from_concat {A St : Type} (body : St → nat → A → exec St) :
  (∀ s i j x, body s i x = body s j x) →
  ∀ (xss : list (list A)) i j s,
    for_range_from i (λ s _ xs, for_range body xs s) xss s =
    for_range_from j body (concat xss) s.
Proof.
  intros Hirr xss. induction xss as [| xs xss IH]; intros i j s; [reflexivity |].
  rewrite for_range_from_cons. simpl concat. rewrite for_range_from_app.
  change (for_range_from 0 body xs s ≫=
            for_range_from (S i) (λ s _ xs, for_range body xs s) xss =
          for_range_from j body xs s ≫= for_range_from (j + length xs) body (concat xss)).
  rewrite (for_range_from_shift body Hirr xs 0 j s).
  destruct (for_range_from j body xs s) as [s' | r0 |]; simpl;
    [apply IH | reflexivity | reflexivity].
Qed.

(** X5: a multi-polygon is handled exactly as the polygon made of all its
    rings, in order: [calculateBounds]'s loop body and the drawing loop's
    body give the same result on both, panics and replies included. *)
Theorem multiPolygon_as_polygon (env : Env) (scaleMap : gmap Z Z) (b : BBox)
    (canvas : list svg_call) (i : nat) (properties : gmap string jvalue)
    (multiPolygon : list (list (list (list R)))) :
  boundsOfFeature scaleMap b i (mkFeature properties (Some (MultiPolygon multiPolygon))) =
  boundsOfFeature scaleMap b i (mkFeature properties (Some (Polygon (concat multiPolygon)))) ∧
  drawFeature env scaleMap b canvas i
    (mkFeature properties (Some (MultiPolygon multiPolygon))) =
  drawFeature env scaleMap b canvas i
    (mkFeature properties (Some (Polygon (concat multiPolygon)))).
Proof.
  split.
  - unfold boundsOfFeature. simpl.
    destruct (type_assert_float64 _) as [id | r0 |]; simpl; try reflexivity.
    case_bool_decide; [reflexivity |].
    apply (for_range_from_concat boundsOfRing). reflexivity.
  - unfold drawFeature. simpl.
    destruct (assert_float64 _) as [id |]; [| reflexivity].
    assert (featurePaths env b (mkFeature properties (Some (MultiPolygon multiPolygon))) =
            featurePaths env b (mkFeature properties (Some (Polygon (concat multiPolygon)))))
      as ->; [| reflexivity].
    unfold featurePaths. simpl.
    apply (for_range_from_concat (appendRing env b)). reflexivity.
Qed.

(** ** Path data *)

Lemma string_app_assoc (s1 s2 s3 : string) : (s1 +:+ s2) +:+ s3 = s1 +:+ (s2 +:+ s3).
Proof.
  induction s1 as [| c s1 IH]; [reflexivity |].
  exact (f_equal (String c) IH).
Qed.

Lemma string_app_nil_r (s : string) : s +:+ "" = s.
Proof.
  induction s as [| c s IH]; [reflexivity |].
  exact (f_equal (String c) IH).
Qed.

Lemma concat_empty_cons (t : string) (ts : list string) :
  String.concat "" (t :: ts) = t +:+ String.concat "" ts.
Proof. destruct ts as [| u ts]; [symmetry; apply string_app_nil_r | reflexivity]. Qed.

(** The text that the points after the first add to a ring. *)
Lemma ring_loop_lines env b (ring : list (list R)) :
  Forall (λ coord, is_Some (point_of coord)) ring →
  ∀ i pathStr,
    for_range_from (S i) (ringPath_step env b) ring pathStr =
      Next (pathStr +:+
            String.concat "" (map (λ p, " L" +:+ point_text env b p) (omap point_of ring))).
Proof.
  induction 1 as [| coord ring [p Hp] _ IH]; intros i pathStr.
  - simpl. by rewrite string_app_nil_r.
  - rewrite for_range_from_cons. simpl omap. rewrite Hp. simpl map.
    assert (ringPath_step env b pathStr (S i) coord =
            Next (pathStr +:+ (" L" +:+ point_text env b p))) as ->.
    { unfold ringPath_step, index, point_text. unfold point_of in Hp.
      destruct (coord !! 0%nat) as [lon |]; [| discriminate].
      destruct (coord !! 1%nat) as [lat |]; [| discriminate].
      simpl in Hp. injection Hp as <-. simpl.
      destruct (screenPoint env b lon lat) as [x y]. reflexivity. }
    rewrite exec_bind_next, IH. f_equal.
    rewrite string_app_assoc, concat_empty_cons. reflexivity.
Qed.

Lemma concat_lines (t : string) (ts : list string) :
  String.concat " L" (t :: ts) = t +:+ String.concat "" (map (λ u, " L" +:+ u) ts).
Proof.
  revert t. induction ts as [| u ts IH]; intros t.
  - simpl. by rewrite string_app_nil_r.
  - change (String.concat " L" (t :: u :: ts)) with (t +:+ " L" +:+ String.concat " L" (u :: ts)).
    rewrite IH. simpl map. rewrite concat_empty_cons, string_app_assoc. reflexivity.
Qed.

Lemma appendRing_ring_text env b paths i (ring : list (list R)) :
  Forall (λ coord, is_Some (point_of coord)) ring →
  appendRing env b paths i ring = Next (paths ++ [ring_text env b ring]).
Proof.
  intros Hring. unfold appendRing, for_range, ring_text.
  destruct Hring as [| coord ring [p Hp] Hrest]; [reflexivity |].
  rewrite for_range_from_cons.
  assert (ringPath_step env b "M" 0 coord = Next ("M" +:+ point_text env b p)) as ->.
  { unfold ringPath_step, index, point_text. unfold point_of in Hp.
    destruct (coord !! 0%nat) as [lon |]; [| discriminate].
    destruct (coord !! 1%nat) as [lat |]; [| discriminate].
    simpl in Hp. injection Hp as <-. simpl.
    destruct (screenPoint env b lon lat) as [x y]. reflexivity. }
  rewrite exec_bind_next, (ring_loop_lines env b ring Hrest). simpl omap. rewrite Hp.
  simpl map. rewrite concat_lines.
  rewrite <- (map_map (point_text env b) (λ u, " L" +:+ u)).
  rewrite exec_bind_next, !string_app_assoc. reflexivity.
Qed.

(** X6: for a ring whose positions have two components, the drawing loop
    appends one path text to the list: "M", the first point, " L" before each
    further point, and " Z" at the end; for an empty ring the text is
    "M Z". The texts already in the list are kept. *)
Theorem appendRing_text (env : Env) (b : BBox) (paths : list string) (i : nat)
    (ring : list (list R)) :
  Forall (λ coord, is_Some (point_of coord)) ring →
  appendRing env b paths i ring = Next (paths ++ [ring_text env b ring]) ∧
  ring_text env b [] = "M Z".
Proof.
  intros Hring. split.
  - apply appendRing_ring_text, Hring.
  - reflexivity.
Qed.

Lemma appendRing_text_example :
  appendRing (sample_env [] two_regions) initialBounds [] 0
    [[130; 30]; [140; 30]; [140; 40]]%R =
    Next ([] ++ [ring_text (sample_env [] two_regions) initialBounds
                   [[130; 30]; [140; 30]; [140; 40]]%R]) ∧
  ring_text (sample_env [] two_regions) initialBounds [] = "M Z".
Proof.
  apply appendRing_text. repeat (constructor; [by eexists |]). constructor.
Defined.

Lemma appendRing_loop_text env b (polygon : list (list (list R))) :
  Forall (λ coord, is_Some (point_of coord)) (concat polygon) →
  ∀ i paths,
    for_range_from i (appendRing env b) polygon paths =
      Next (paths ++ map (ring_text env b) polygon).
Proof.
  induction polygon as [| ring polygon IH]; intros Hall i paths.
  - simpl. by rewrite app_nil_r.
  - simpl in Hall. apply Forall_app in Hall as [Hring Hrest].
    rewrite for_range_from_cons, (appendRing_ring_text env b paths i ring Hring).
    rewrite exec_bind_next, (IH Hrest). simpl. by rewrite <- app_assoc.
Qed.

Lemma featurePaths_text env b feature g :
  FeatureGeometry feature = Some g → has_positions g →
  featurePaths env b feature = Next (map (ring_text env b) (geometry_rings g)).
Proof.
  intros Hg Hpos. unfold featurePaths, for_range. rewrite Hg. simpl.
  unfold has_positions in Hpos. destruct g as [polygon | multiPolygon | t]; simpl in *.
  - apply (appendRing_loop_text env b polygon Hpos).
  - change (appendPolygon env b) with (λ s (_ : nat) xs, for_range (appendRing env b) xs s).
    rewrite (for_range_from_concat (appendRing env b) ltac:(reflexivity) _ 0%nat 0%nat).
    apply (appendRing_loop_text env b (concat multiPolygon) Hpos).
  - reflexivity.
Qed.

Lemma finalPath_from (paths : list string) :
  ∀ acc, fold_left (λ acc p, acc +:+ (p +:+ " ")) paths acc =
         acc +:+ String.concat "" (map (λ p, p +:+ " ") paths).
Proof.
  induction paths as [| p paths IH]; intros acc.
  - simpl. by rewrite string_app_nil_r.
  - simpl fold_left. rewrite IH. simpl map.
    rewrite concat_empty_cons, string_app_assoc. reflexivity.
Qed.

(** X7: for a region with a numeric identifier and a geometry whose positions
    have two components, the drawing loop appends exactly one path element to
    the canvas: its path data is the text of each ring of the geometry
    followed by a space, in order (empty when the geometry has no ring), and
    its style fills with the color of the severity the table resolves for the
    region. *)
Theorem drawFeature_path_data (env : Env) (scaleMap : gmap Z Z) (b : BBox)
    (canvas : list svg_call) (i : nat) (feature : Feature) (id : R) (g : Geometry) :
  assert_float64 (Properties feature !! "id") = Some id →
  FeatureGeometry feature = Some g →
  has_positions g →
  drawFeature env scaleMap b canvas i feature =
    Next (canvas ++
          [SvgPath
             (String.concat "" (map (λ ring, ring_text env b ring +:+ " ") (geometry_rings g)))
             (pathStyle (intensityToColor (scaleValue scaleMap id)))]).
Proof.
  intros Hid Hg Hpos. unfold drawFeature.
  rewrite Hid, (featurePaths_text env b feature g Hg Hpos), exec_bind_next.
  unfold finalPath. rewrite finalPath_from, map_map. reflexivity.
Qed.

Lemma drawFeature_path_data_example :
  drawFeature (sample_env [] two_regions) {[1 := 3]} initialBounds [] 0
    (sample_region 1 (Some square)) =
    Next ([] ++
          [SvgPath
             (String.concat ""
                (map (λ ring, ring_text (sample_env [] two_regions) initialBounds ring +:+ " ")
                   (geometry_rings square)))
             (pathStyle (intensityToColor (scaleValue {[1 := 3]} (IZR 1))))]).
Proof.
  apply drawFeature_path_data.
  - apply sample_region_id.
  - reflexivity.
  - unfold has_positions. simpl. repeat (constructor; [by eexists |]). constructor.
Defined.

(** ** The color policy as a legend *)

Lemma intensityToColor_color_band (s : Z) :
  intensityToColor s = intensityToColor (color_band s) ∧ 0 <= color_band s <= 8.
Proof.
  unfold color_band. case_bool_decide as Hneg.
  - split; [by rewrite intensityToColor_negative | lia].
  - case_bool_decide as Hbig; [| split; [reflexivity | lia]].
    split; [| lia]. rewrite intensityToColor_above by done. reflexivity.
Qed.

Lemma intensityToColor_injective_on_bands (s t : Z) :
  0 <= s <= 8 → 0 <= t <= 8 → intensityToColor s = intensityToColor t → s = t.
Proof.
  intros Hs Ht.
  assert (s = 0 ∨ s = 1 ∨ s = 2 ∨ s = 3 ∨ s = 4 ∨ s = 5 ∨ s = 6 ∨ s = 7 ∨ s = 8) as Hcs by lia.
  assert (t = 0 ∨ t = 1 ∨ t = 2 ∨ t = 3 ∨ t = 4 ∨ t = 5 ∨ t = 6 ∨ t = 7 ∨ t = 8) as Hct by lia.
  repeat (destruct Hcs as [-> | Hcs]); try subst s;
    repeat (destruct Hct as [-> | Hct]); try subst t;
    first [reflexivity | discriminate].
Qed.

(** X8: two severities get the same color exactly when they lie in the same
    band, the bands being the negative severities together with 0, each of
    1..7 alone, and everything above 7: within [0,7] distinct severities have
    distinct colors. *)
Theorem intensityToColor_same_color (s t : Z) :
  intensityToColor s = intensityToColor t ↔ color_band s = color_band t.
Proof.
  destruct (intensityToColor_color_band s) as [Hs Hbs].
  destruct (intensityToColor_color_band t) as [Ht Hbt].
  split.
  - intros Heq. apply intensityToColor_injective_on_bands; [done | done |].
    rewrite <- Hs, <- Ht. exact Heq.
  - intros Heq. rewrite Hs, Ht, Heq. reflexivity.
Qed.

(** ** The table that the handler builds *)

Lemma buildScaleMap_next_in_range (intensities : list IntensityQuery) scaleMap :
  buildScaleMap intensities = Next scaleMap → Forall in_range intensities.
Proof.
  intros Hnext. apply Forall_forall. intros q Hq.
  destruct (decide (in_range q)) as [Hin | Hout]; [exact Hin |].
  destruct (first_invalid_split intensities) as (pre & bad & post & -> & Hpre & Hbad).
  { apply Exists_exists. eauto. }
  unfold buildScaleMap, for_range in Hnext.
  rewrite (scaleMap_loop_first_invalid pre bad post Hpre Hbad) in Hnext. discriminate.
Qed.

Lemma buildScaleMap_next_lookup (intensities : list IntensityQuery) scaleMap :
  buildScaleMap intensities = Next scaleMap →
  ∀ id, scaleMap !! id = Scale <$> last_entry id intensities.
Proof.
  intros Hnext id.
  pose proof (buildScaleMap_next_in_range intensities scaleMap Hnext) as Hvalid.
  destruct (scaleMap_loop_last_write intensities Hvalid 0 ∅) as (m & Hm & Hlook).
  unfold buildScaleMap, for_range in Hnext. rewrite Hm in Hnext. injection Hnext as <-.
  rewrite Hlook. destruct (last_entry id intensities); [reflexivity | apply lookup_empty].
Qed.

Lemma overwritten_table :
  buildScaleMap [mkIntensityQuery 1 2; mkIntensityQuery 1 5] = Next {[1 := 5]}.
Proof.
  unfold buildScaleMap, for_range. rewrite for_range_from_cons.
  rewrite scaleMap_step_in_range by (unfold in_range; simpl; lia).
  rewrite exec_bind_next, for_range_from_cons.
  rewrite scaleMap_step_in_range by (unfold in_range; simpl; lia).
  reflexivity.
Qed.

(** X9: when the validation loop builds a table, every entry of the payload
    was in range, and the table holds nothing else than the payload: each
    severity it stores lies in [0,7] and is the severity of an entry of the
    payload with that identifier. *)
Theorem buildScaleMap_stores_payload (intensities : list IntensityQuery)
    (scaleMap : gmap Z Z) :
  buildScaleMap intensities = Next scaleMap →
  Forall in_range intensities ∧
  ∀ id v, scaleMap !! id = Some v →
    0 <= v <= 7 ∧
    ∃ intensity, intensity ∈ intensities ∧ ID intensity = id ∧ Scale intensity = v.
Proof.
  intros Hnext.
  pose proof (buildScaleMap_next_in_range intensities scaleMap Hnext) as Hvalid.
  split; [exact Hvalid |]. intros id v Hv.
  rewrite (buildScaleMap_next_lookup intensities scaleMap Hnext) in Hv.
  unfold last_entry in Hv.
  destruct (last (filter _ intensities)) as [q |] eqn:Hlast; [| discriminate].
  injection Hv as <-. apply last_Some_elem_of in Hlast.
  apply list_elem_of_filter in Hlast as [Hid Hq].
  rewrite Forall_forall in Hvalid. split; [apply (Hvalid q Hq) | eauto].
Qed.

Lemma buildScaleMap_stores_payload_example :
  Forall in_range [mkIntensityQuery 1 2; mkIntensityQuery 1 5] ∧
  ∀ id v, ({[1 := 5]} : gmap Z Z) !! id = Some v →
    0 <= v <= 7 ∧
    ∃ intensity, intensity ∈ [mkIntensityQuery 1 2; mkIntensityQuery 1 5] ∧
                 ID intensity = id ∧ Scale intensity = v.
Proof.
  apply buildScaleMap_stores_payload. apply overwritten_table.
Defined.

(** X10: for a table that the handler built, the regions that enter the
    bounding box are exactly the regions that are not drawn in the color of
    severity 0: a region with a numeric identifier is active if and only if
    its fill differs from [#27272a]. *)
Theorem active_iff_colored (intensities : list IntensityQuery) (scaleMap : gmap Z Z)
    (feature : Feature) (id : R) :
  buildScaleMap intensities = Next scaleMap →
  assert_float64 (Properties feature !! "id") = Some id →
  (is_active scaleMap feature ↔ intensityToColor (scaleValue scaleMap id) ≠ "#27272a").
Proof.
  intros Hnext Hid. unfold is_active, scaleValue, map_index. rewrite Hid.
  destruct (scaleMap !! float64_to_int id) as [v |] eqn:Hv; simpl.
  - assert (0 <= v <= 7) as Hrange.
    { pose proof (buildScaleMap_next_lookup intensities scaleMap Hnext (float64_to_int id))
        as Hlook.
      rewrite Hv in Hlook. unfold last_entry in Hlook.
      destruct (last (filter _ intensities)) as [q |] eqn:Hlast; [| discriminate].
      injection Hlook as ->. apply last_Some_elem_of in Hlast.
      apply list_elem_of_filter in Hlast as [_ Hq].
      pose proof (buildScaleMap_next_in_range intensities scaleMap Hnext) as Hvalid.
      rewrite Forall_forall in Hvalid. apply (Hvalid q Hq). }
    split.
    + intros Hne Hcolor. apply Hne.
      apply (intensityToColor_injective_on_bands v 0); [lia | lia | exact Hcolor].
    + intros Hcolor ->. by apply Hcolor.
  - split; [intros H; by contradiction H | intros H; by contradiction H].
Qed.

Lemma active_iff_colored_example :
  is_active {[1 := 5]} (sample_region 1 (Some square)) ↔
  intensityToColor (scaleValue {[1 := 5]} (IZR 1)) ≠ "#27272a".
Proof.
  apply (active_iff_colored [mkIntensityQuery 1 2; mkIntensityQuery 1 5]).
  - apply overwritten_table.
  - apply sample_region_id.
Defined.

(** ** The handler before and after the geometry *)

(** A request is answered before the geometry is looked at, with one of the
    four early replies, or it reaches the geometry. *)
Lemma mapHandler_before_geometry env r :
  (∃ msg, mapHandler env r = Responded (http_Error msg StatusBadRequest)) ∨
  (∃ err, mapHandler env r =
            Responded (http_Error ("Failed to read geojson: " +:+ err)
                         StatusInternalServerError)) ∨
  (∃ err, mapHandler env r =
            Responded (http_Error ("Failed to unmarshal geojson: " +:+ err)
                         StatusInternalServerError)) ∨
  (∃ scaleMap fc, reaches_geometry env r scaleMap fc).
Proof.
  destruct (decide (Values_Get (Query r) "scale" = "")) as [Hscale | Hscale].
  { left. eexists. apply mapHandler_no_scale, Hscale. }
  destruct (json_Unmarshal env (Values_Get (Query r) "scale")) as [err | intensities] eqn:Hjson.
  { left. eexists. apply (mapHandler_bad_json env r err Hscale Hjson). }
  pose proof (buildScaleMap_replies intensities) as Hreplies.
  destruct (buildScaleMap intensities) as [scaleMap | r0 |] eqn:Htable.
  2: { left. destruct Hreplies as [msg ->]. exists msg.
       apply (mapHandler_table_reply env r intensities _ Hscale Hjson Htable). }
  2: { by apply buildScaleMap_no_panic in Htable. }
  destruct (os_ReadFile env "japan.geojson") as [err | data] eqn:Hfile.
  { right; left. exists err. unfold mapHandler. rewrite bool_decide_eq_false_2 by done.
    rewrite Hjson. simpl. rewrite Htable. simpl. rewrite Hfile. reflexivity. }
  destruct (UnmarshalFeatureCollection env data) as [err | fc] eqn:Hfc.
  { right; right; left. exists err. unfold mapHandler.
    rewrite bool_decide_eq_false_2 by done.
    rewrite Hjson. simpl. rewrite Htable. simpl. rewrite Hfile. simpl. rewrite Hfc.
    reflexivity. }
  right; right; right. exists scaleMap, fc. split; [exact Hscale |].
  exists intensities, data. repeat split; assumption.
Qed.

(** What the handler does once it has the table and the collection. *)
Lemma mapHandler_after_geometry env r scaleMap fc :
  reaches_geometry env r scaleMap fc →
  mapHandler env r =
    run (b ← calculateBounds fc scaleMap;
         canvas ← for_range (drawFeature env scaleMap b) (Features fc) blankCanvas;
         if bool_decide (Values_Get (Query r) "format" = "svg")
         then Next (mkResponse StatusOK "image/svg+xml" (Svg (canvas ++ [SvgEnd])))
         else
           pngData ← or_reply (svgToPNG env (canvas ++ [SvgEnd]) CANVAS_WIDTH CANVAS_HEIGHT
                                 (Values_Get (Query r) "footer"))
                       "Failed to convert svg to png: " StatusInternalServerError;
           Next (mkResponse StatusOK "image/png" (Png pngData))).
Proof.
  intros (H & intensities & data & Hjson & Htable & Hfile & Hfc).
  unfold mapHandler. rewrite bool_decide_eq_false_2 by done.
  rewrite Hjson. simpl. rewrite Htable. simpl. rewrite Hfile. simpl. rewrite Hfc.
  reflexivity.
Qed.

(** Two requests with the same payload reach the same geometry. *)
Lemma reaches_geometry_same_scale env r1 r2 scaleMap fc :
  Values_Get (Query r1) "scale" = Values_Get (Query r2) "scale" →
  reaches_geometry env r1 scaleMap fc → reaches_geometry env r2 scaleMap fc.
Proof. unfold reaches_geometry. intros <-. tauto. Qed.

(** The request determines the table and the collection it reaches. *)
Lemma reaches_geometry_unique env r scaleMap1 fc1 scaleMap2 fc2 :
  reaches_geometry env r scaleMap1 fc1 → reaches_geometry env r scaleMap2 fc2 →
  scaleMap1 = scaleMap2 ∧ fc1 = fc2.
Proof.
  intros (_ & l1 & d1 & Hj1 & Ht1 & Hf1 & Hc1) (_ & l2 & d2 & Hj2 & Ht2 & Hf2 & Hc2).
  rewrite Hj1 in Hj2. injection Hj2 as <-. rewrite Ht1 in Ht2. injection Ht2 as <-.
  rewrite Hf1 in Hf2. injection Hf2 as <-. rewrite Hc1 in Hc2. injection Hc2 as <-.
  split; reflexivity.
Qed.

(** Once the bounding box is there, every region has a numeric identifier,
    so the drawing loop writes no reply. *)
Lemma draw_loop_no_reply env scaleMap b (features : list Feature) :
  Forall (λ feature, is_Some (assert_float64 (Properties feature !! "id"))) features →
  ∀ i canvas,
    replies (λ _, False) (for_range_from i (drawFeature env scaleMap b) features canvas).
Proof.
  induction 1 as [| feature features [id Hid] _ IH]; intros i canvas; [exact I |].
  rewrite for_range_from_cons. apply replies_bind; [| intros canvas1; apply IH].
  unfold drawFeature. rewrite Hid.
  apply replies_bind; [apply replies_featurePaths | intros; exact I].
Qed.

(** X11: every reply of the handler with status 500 reports a collaborator
    that failed: the geometry file could not be read, could not be decoded,
    or the scene could not be converted to PNG. The reply "Invalid ID format
    in GeoJSON" of the drawing loop is never sent: [calculateBounds] has
    already required a numeric identifier of every region. *)
Theorem server_errors_report_collaborators (env : Env) (r : Request) :
  (∀ resp,
     mapHandler env r = Responded resp →
     status resp = StatusInternalServerError →
     ∃ err,
       resp = http_Error ("Failed to read geojson: " +:+ err) StatusInternalServerError ∨
       resp = http_Error ("Failed to unmarshal geojson: " +:+ err) StatusInternalServerError ∨
       resp = http_Error ("Failed to convert svg to png: " +:+ err)
                StatusInternalServerError) ∧
  mapHandler env r ≠
    Responded (http_Error "Invalid ID format in GeoJSON" StatusInternalServerError).
Proof.
  assert (∀ resp,
     mapHandler env r = Responded resp →
     status resp = StatusInternalServerError →
     ∃ err,
       resp = http_Error ("Failed to read geojson: " +:+ err) StatusInternalServerError ∨
       resp = http_Error ("Failed to unmarshal geojson: " +:+ err) StatusInternalServerError ∨
       resp = http_Error ("Failed to convert svg to png: " +:+ err)
                StatusInternalServerError) as Hclass.
  { intros resp Hresp Hstatus.
    destruct (mapHandler_before_geometry env r)
      as [[msg H] | [[err H] | [[err H] | (scaleMap & fc & Hreach)]]].
    - rewrite H in Hresp. injection Hresp as <-. discriminate.
    - rewrite H in Hresp. injection Hresp as <-. eauto.
    - rewrite H in Hresp. injection Hresp as <-. eauto.
    - rewrite (mapHandler_after_geometry env r scaleMap fc Hreach) in Hresp.
      pose proof (calculateBounds_replies (λ _, False) fc scaleMap) as Hb.
      destruct (calculateBounds fc scaleMap) as [b | r0 |] eqn:Hbounds; simpl in *;
        [| done | discriminate].
      apply features_loop_inv in Hbounds as [_ Hids].
      pose proof (draw_loop_no_reply env scaleMap b (Features fc) Hids 0 blankCanvas)
        as Hdraw.
      unfold for_range in Hresp.
      destruct (for_range_from 0 (drawFeature env scaleMap b) (Features fc) blankCanvas)
        as [canvas | r0 |]; simpl in *; [| done | discriminate].
      case_bool_decide; simpl in Hresp.
      + injection Hresp as <-. discriminate.
      + destruct (svgToPNG env _ _ _ _) as [err | bytes]; simpl in Hresp;
          injection Hresp as <-; [eauto | discriminate]. }
  split; [exact Hclass |].
  intros Hresp. destruct (Hclass _ Hresp eq_refl) as [err [H | [H | H]]];
    injection H as H; vm_compute in H; discriminate.
Qed.

(** X12: over a geometry decoder that yields drawable collections only
    (numeric identifiers, geometries present, positions with two components)
    the handler never panics: every request gets a reply. *)
Theorem drawable_geometry_always_replies (env : Env) (r : Request) :
  (∀ data fc, UnmarshalFeatureCollection env data = inr fc → drawable fc) →
  ∃ resp, mapHandler env r = Responded resp.
Proof.
  intros Hdrawable.
  destruct (mapHandler_before_geometry env r)
    as [[msg H] | [[err H] | [[err H] | (scaleMap & fc & Hreach)]]]; eauto.
  assert (drawable fc) as Hd.
  { destruct Hreach as (_ & intensities & data & _ & _ & _ & Hfc).
    apply (Hdrawable data fc Hfc). }
  rewrite (mapHandler_after_geometry env r scaleMap fc Hreach).
  destruct (calculateBounds_total fc scaleMap Hd) as [b ->]. simpl.
  destruct (draw_loop_total env scaleMap b (Features fc) Hd 0%nat blankCanvas)
    as [canvas Hcanvas].
  unfold for_range. rewrite Hcanvas. simpl.
  case_bool_decide; simpl; [eauto |].
  destruct (svgToPNG env _ _ _ _); simpl; eauto.
Qed.

Lemma two_regions_drawable : drawable two_regions.
Proof.
  intros feature Hin. unfold two_regions in Hin. simpl in Hin.
  apply elem_of_cons in Hin as [-> | Hin]; [| apply list_elem_of_singleton in Hin as ->].
  - split; [rewrite sample_region_id; eauto |]. exists square. split; [reflexivity |].
    unfold has_positions. simpl. repeat (constructor; [by eexists |]). constructor.
  - split; [rewrite sample_region_id; eauto |]. exists triangle. split; [reflexivity |].
    unfold has_positions. simpl. repeat (constructor; [by eexists |]). constructor.
Qed.

Lemma drawable_geometry_always_replies_example :
  ∃ resp,
    mapHandler (sample_env [mkIntensityQuery 1 3] two_regions)
               (sample_request [mkIntensityQuery 1 3] "png") = Responded resp.
Proof.
  apply drawable_geometry_always_replies.
  intros data fc [= <-]. apply two_regions_drawable.
Defined.

(** X13: for a request whose payload passes the validation, a geometry file
    that cannot be read is answered with status 500 and the message
    "Failed to read geojson: " followed by the error, and a geometry file
    that does not decode with 500 and "Failed to unmarshal geojson: "
    followed by the error, whatever the format asked for. *)
Theorem geometry_file_errors (env : Env) (r : Request) (intensities : list IntensityQuery) :
  Values_Get (Query r) "scale" ≠ "" →
  json_Unmarshal env (Values_Get (Query r) "scale") = inr intensities →
  Forall in_range intensities →
  (∀ err,
     os_ReadFile env "japan.geojson" = inl err →
     mapHandler env r =
       Responded (http_Error ("Failed to read geojson: " +:+ err)
                    StatusInternalServerError)) ∧
  (∀ data err,
     os_ReadFile env "japan.geojson" = inr data →
     UnmarshalFeatureCollection env data = inl err →
     mapHandler env r =
       Responded (http_Error ("Failed to unmarshal geojson: " +:+ err)
                    StatusInternalServerError)).
Proof.
  intros Hscale Hjson Hvalid.
  destruct (scaleMap_loop_last_write intensities Hvalid 0 ∅) as (m & Hm & _).
  split.
  - intros err Hfile. unfold mapHandler. rewrite bool_decide_eq_false_2 by done.
    rewrite Hjson. simpl. unfold buildScaleMap, for_range. rewrite Hm. simpl.
    rewrite Hfile. reflexivity.
  - intros data err Hfile Hfc. unfold mapHandler. rewrite bool_decide_eq_false_2 by done.
    rewrite Hjson. simpl. unfold buildScaleMap, for_range. rewrite Hm. simpl.
    rewrite Hfile. simpl. rewrite Hfc. reflexivity.
Qed.

Lemma geometry_file_errors_example :
  (∀ err,
     os_ReadFile (missing_file_env [mkIntensityQuery 1 3]) "japan.geojson" = inl err →
     mapHandler (missing_file_env [mkIntensityQuery 1 3])
                (sample_request [mkIntensityQuery 1 3] "svg") =
       Responded (http_Error ("Failed to read geojson: " +:+ err)
                    StatusInternalServerError)) ∧
  (∀ data err,
     os_ReadFile (missing_file_env [mkIntensityQuery 1 3]) "japan.geojson" = inr data →
     UnmarshalFeatureCollection (missing_file_env [mkIntensityQuery 1 3]) data = inl err →
     mapHandler (missing_file_env [mkIntensityQuery 1 3])
                (sample_request [mkIntensityQuery 1 3] "svg") =
       Responded (http_Error ("Failed to unmarshal geojson: " +:+ err)
                    StatusInternalServerError)).
Proof.
  apply (geometry_file_errors _ _ [mkIntensityQuery 1 3]).
  - rewrite sample_request_scale. apply payload_text_nonempty.
  - rewrite sample_request_scale.
    apply (sample_env_unmarshal [mkIntensityQuery 1 3] (mkFeatureCollection [])).
  - repeat constructor; unfold in_range; simpl; lia.
Defined.

(** What a vector reply tells: the format asked for was svg, and the run got
    through the bounding box and the drawing loop. *)
Lemma mapHandler_svg_stages env r doc :
  mapHandler env r = Responded (mkResponse StatusOK "image/svg+xml" (Svg doc)) →
  ∃ scaleMap fc b canvas,
    reaches_geometry env r scaleMap fc ∧
    calculateBounds fc scaleMap = Next b ∧
    for_range (drawFeature env scaleMap b) (Features fc) blankCanvas = Next canvas ∧
    doc = canvas ++ [SvgEnd].
Proof.
  intros Hsvg.
  destruct (mapHandler_before_geometry env r)
    as [[msg H] | [[err H] | [[err H] | (scaleMap & fc & Hreach)]]];
    try (rewrite H in Hsvg; discriminate).
  destruct (mapHandler_svg_inv env r scaleMap fc doc Hreach Hsvg)
    as (b & canvas & Hb & Hloop & Hdoc).
  exists scaleMap, fc, b, canvas.
  split; [exact Hreach |]. split; [exact Hb |]. split; [exact Hloop | exact Hdoc].
Qed.

(** X14: the raster image is made from the very scene that [format=svg]
    returns: if a request is answered with the scene [doc], then a request
    with the same payload and any other format (none included) hands [doc],
    the canvas size 1280 by 720 and its caption (the attribution text when
    the caption is empty) to the raster collaborator, and replies with its
    bytes as image/png, or with status 500 and its error. *)
Theorem png_rasters_the_svg_scene (env : Env) (r_svg r_png : Request)
    (doc : list svg_call) :
  Values_Get (Query r_svg) "scale" = Values_Get (Query r_png) "scale" →
  Values_Get (Query r_png) "format" ≠ "svg" →
  mapHandler env r_svg = Responded (mkResponse StatusOK "image/svg+xml" (Svg doc)) →
  mapHandler env r_png =
    match raster_export env doc 1280 720
            (if bool_decide (Values_Get (Query r_png) "footer" = "")
             then defaultFooter else Values_Get (Query r_png) "footer") with
    | inr bytes => Responded (mkResponse StatusOK "image/png" (Png bytes))
    | inl err =>
        Responded (http_Error ("Failed to convert svg to png: " +:+ err)
                     StatusInternalServerError)
    end.
Proof.
  intros Hscale Hformat Hsvg.
  destruct (mapHandler_svg_stages env r_svg doc Hsvg)
    as (scaleMap & fc & b & canvas & Hreach & Hb & Hloop & ->).
  apply (reaches_geometry_same_scale env r_svg r_png scaleMap fc Hscale) in Hreach.
  rewrite (mapHandler_after_geometry env r_png scaleMap fc Hreach).
  rewrite Hb. simpl. rewrite Hloop. simpl.
  rewrite bool_decide_eq_false_2 by done. unfold svgToPNG, CANVAS_WIDTH, CANVAS_HEIGHT.
  destruct (raster_export env _ _ _ _); reflexivity.
Qed.

Lemma png_rasters_the_svg_scene_example :
  mapHandler (sample_env [] point_region) (sample_request [] "png") =
    match raster_export (sample_env [] point_region)
            [SvgStart 1280 720;
             SvgRect 0 0 1280 720 "fill:#18181b";
             SvgPath "" "fill:#27272a;stroke:#a1a1aa;stroke-width:0.2;fill-opacity:0.8";
             SvgEnd] 1280 720
            (if bool_decide (Values_Get (Query (sample_request [] "png")) "footer" = "")
             then defaultFooter
             else Values_Get (Query (sample_request [] "png")) "footer") with
    | inr bytes => Responded (mkResponse StatusOK "image/png" (Png bytes))
    | inl err =>
        Responded (http_Error ("Failed to convert svg to png: " +:+ err)
                     StatusInternalServerError)
    end.
Proof.
  apply (png_rasters_the_svg_scene _ (sample_request [] "svg")).
  - rewrite !sample_request_scale. reflexivity.
  - rewrite sample_request_format. discriminate.
  - apply point_region_scene.
Defined.

(** X15: in a vector reply the fill of every region follows the payload: the
    path element of the i-th region carries the color of the severity of the
    last payload entry for the region's identifier (its fraction dropped), and
    the color of severity 0 when the payload has no entry for it. *)
Theorem fills_follow_payload (env : Env) (r : Request) (intensities : list IntensityQuery)
    (scaleMap : gmap Z Z) (fc : FeatureCollection) (doc : list svg_call) :
  json_Unmarshal env (Values_Get (Query r) "scale") = inr intensities →
  reaches_geometry env r scaleMap fc →
  mapHandler env r = Responded (mkResponse StatusOK "image/svg+xml" (Svg doc)) →
  ∀ i feature id,
    Features fc !! i = Some feature →
    assert_float64 (Properties feature !! "id") = Some id →
    ∃ d,
      path_elements doc !! i =
        Some (SvgPath d (pathStyle (intensityToColor
                (resolved_severity (float64_to_int id) intensities)))).
Proof.
  intros Hjson Hreach Hsvg i feature id Hi Hid.
  assert (buildScaleMap intensities = Next scaleMap) as Htable.
  { destruct Hreach as (_ & l & data & Hj & Ht & _). rewrite Hjson in Hj.
    injection Hj as <-. exact Ht. }
  destruct (svg_scene env r scaleMap fc doc Hreach Hsvg) as (b & elems & _ & -> & Hall).
  rewrite (scene_path_elements _ _ _ _ _ Hall).
  destruct (Forall2_lookup_l _ _ _ _ _ Hall Hi) as (elem & Helem & Hdrawn).
  destruct Hdrawn as (id' & paths & Hid' & _ & _ & ->).
  rewrite Hid in Hid'. injection Hid' as <-.
  exists (finalPath paths). rewrite Helem. do 4 f_equal.
  unfold scaleValue, resolved_severity.
  rewrite (buildScaleMap_next_lookup intensities scaleMap Htable).
  destruct (last_entry _ intensities); reflexivity.
Qed.

(** The two sample regions under the payload [{id:1,scale:2},{id:1,scale:5}]:
    region 1 has two entries, region 2 none. *)
Lemma two_regions_overwritten_scene :
  mapHandler (sample_env [mkIntensityQuery 1 2; mkIntensityQuery 1 5] two_regions)
             (sample_request [mkIntensityQuery 1 2; mkIntensityQuery 1 5] "svg") =
    Responded (mkResponse StatusOK "image/svg+xml"
      (Svg [SvgStart 1280 720;
            SvgRect 0 0 1280 720 "fill:#18181b";
            SvgPath "M0.0 0.0 L0.0 0.0 L0.0 0.0 L0.0 0.0 L0.0 0.0 Z "
                    "fill:#dc2626;stroke:#a1a1aa;stroke-width:0.2;fill-opacity:0.8";
            SvgPath "M0.0 0.0 L0.0 0.0 L0.0 0.0 L0.0 0.0 Z "
                    "fill:#27272a;stroke:#a1a1aa;stroke-width:0.2;fill-opacity:0.8";
            SvgEnd])).
Proof.
  set (b := mkBBox 130 30 140 40).
  rewrite (mapHandler_svg _ _ {[1 := 5]} two_regions b
             (blankCanvas ++
              [SvgPath "M0.0 0.0 L0.0 0.0 L0.0 0.0 L0.0 0.0 L0.0 0.0 Z "
                       "fill:#dc2626;stroke:#a1a1aa;stroke-width:0.2;fill-opacity:0.8";
               SvgPath "M0.0 0.0 L0.0 0.0 L0.0 0.0 L0.0 0.0 Z "
                       "fill:#27272a;stroke:#a1a1aa;stroke-width:0.2;fill-opacity:0.8"])).
  - reflexivity.
  - apply sample_reaches_geometry, overwritten_table.
  - rewrite calculateBounds_fold by apply two_regions_well_formed.
    unfold active_points, two_regions. simpl Features.
    rewrite filter_cons_True by (apply sample_region_active; done).
    rewrite filter_cons_False by (rewrite sample_region_active; intros H; by apply H).
    f_equal. unfold initialBounds, extend. simpl. eval_min_max. reflexivity.
  - unfold for_range, two_regions. simpl Features.
    rewrite for_range_from_cons.
    rewrite (sample_drawFeature _ _ _ _ _ _ _ _ (sample_square_paths _ _ b 1)).
    rewrite exec_bind_next, for_range_from_cons.
    rewrite (sample_drawFeature _ _ _ _ _ _ _ _ (sample_triangle_paths _ _ b 2)).
    rewrite lookup_singleton_eq, lookup_singleton_ne by lia. reflexivity.
  - apply sample_request_format.
Qed.

(** Under that payload region 1, a square, is filled with the color of its
    last entry, severity 5; the 2 of its first entry is overwritten. *)
Lemma fills_follow_payload_example :
  ∃ d,
    path_elements
      [SvgStart 1280 720;
       SvgRect 0 0 1280 720 "fill:#18181b";
       SvgPath "M0.0 0.0 L0.0 0.0 L0.0 0.0 L0.0 0.0 L0.0 0.0 Z "
               "fill:#dc2626;stroke:#a1a1aa;stroke-width:0.2;fill-opacity:0.8";
       SvgPath "M0.0 0.0 L0.0 0.0 L0.0 0.0 L0.0 0.0 Z "
               "fill:#27272a;stroke:#a1a1aa;stroke-width:0.2;fill-opacity:0.8";
       SvgEnd] !! 0%nat =
      Some (SvgPath d (pathStyle (intensityToColor
              (resolved_severity (float64_to_int (IZR 1))
                 [mkIntensityQuery 1 2; mkIntensityQuery 1 5])))).
Proof.
  apply (fills_follow_payload
           (sample_env [mkIntensityQuery 1 2; mkIntensityQuery 1 5] two_regions)
           (sample_request [mkIntensityQuery 1 2; mkIntensityQuery 1 5] "svg")
           [mkIntensityQuery 1 2; mkIntensityQuery 1 5] {[1 := 5]}
           two_regions _
           ltac:(rewrite sample_request_scale; apply sample_env_unmarshal)
           ltac:(apply sample_reaches_geometry, overwritten_table)
           two_regions_overwritten_scene
           0%nat (sample_region 1 (Some square)) (IZR 1)).
  - reflexivity.
  - apply sample_region_id.
Defined.

(** ** The fixed viewport *)



Lemma fixed_ringPath_step_total env pathStr i coord :
  is_Some (point_of coord) → ∃ pathStr', Fixed.ringPath_step env pathStr i coord = Next pathStr'.
Proof.
  intros [p Hp]. unfold Fixed.ringPath_step, index. unfold point_of in Hp.
  destruct (coord !! 0%nat) as [lon |]; [| discriminate].
  destruct (coord !! 1%nat) as [lat |]; [| discriminate]. simpl.
  destruct (Fixed.screenPoint lon lat) as [x y]. destruct i; by eexists.
Qed.

Lemma fixed_appendRing_total env paths i (ring : list (list R)) :
  Forall (λ coord, is_Some (point_of coord)) ring →
  ∃ paths', Fixed.appendRing env paths i ring = Next paths'.
Proof.
  intros Hring. unfold Fixed.appendRing, for_range.
  assert (∀ j pathStr, ∃ pathStr',
            for_range_from j (Fixed.ringPath_step env) ring pathStr = Next pathStr') as Hloop.
  { induction Hring as [| coord ring Hp _ IH]; intros j pathStr; [by eexists |].
    rewrite for_range_from_cons.
    destruct (fixed_ringPath_step_total env pathStr j coord Hp) as [pathStr1 ->].
    apply IH. }
  destruct (Hloop 0%nat "M") as [pathStr ->]. by eexists.
Qed.

Lemma fixed_appendRing_loop_total env (polygon : list (list (list R))) :
  Forall (λ coord, is_Some (point_of coord)) (concat polygon) →
  ∀ i paths, ∃ paths', for_range_from i (Fixed.appendRing env) polygon paths = Next paths'.
Proof.
  induction polygon as [| ring polygon IH]; intros Hall i paths; [by eexists |].
  simpl in Hall. apply Forall_app in Hall as [Hring Hrest].
  rewrite for_range_from_cons.
  destruct (fixed_appendRing_total env paths i ring Hring) as [paths1 ->].
  apply (IH Hrest).
Qed.

Lemma fixed_featurePaths_total env feature g :
  FeatureGeometry feature = Some g → has_positions g →
  ∃ paths, Fixed.featurePaths env feature = Next paths.
Proof.
  intros Hg Hpos. unfold Fixed.featurePaths, for_range. rewrite Hg. simpl.
  unfold has_positions in Hpos. destruct g as [polygon | multiPolygon | t]; simpl in *.
  - apply fixed_appendRing_loop_total, Hpos.
  - change (Fixed.appendPolygon env)
      with (λ s (_ : nat) xs, for_range (Fixed.appendRing env) xs s).
    rewrite (for_range_from_concat (Fixed.appendRing env) ltac:(reflexivity) _ 0%nat 0%nat).
    apply fixed_appendRing_loop_total, Hpos.
  - by eexists.
Qed.

Lemma fixed_drawFeature_next env scaleMap canvas i feature id paths :
  assert_float64 (Properties feature !! "id") = Some id →
  Fixed.featurePaths env feature = Next paths →
  Fixed.drawFeature env scaleMap canvas i feature =
    Next (canvas ++ [SvgPath (finalPath paths)
                       (pathStyle (intensityToColor (scaleValue scaleMap id)))]).
Proof. intros Hid Hpaths. unfold Fixed.drawFeature. rewrite Hid, Hpaths. reflexivity. Qed.

Lemma fixed_drawFeature_missing_id env scaleMap canvas i feature :
  assert_float64 (Properties feature !! "id") = None →
  Fixed.drawFeature env scaleMap canvas i feature =
    Reply (http_Error "Invalid ID format in GeoJSON" StatusInternalServerError).
Proof. intros Hid. unfold Fixed.drawFeature. rewrite Hid. reflexivity. Qed.

Lemma fixed_draw_loop_total env scaleMap (features : list Feature) :
  (∀ feature, feature ∈ features →
     is_Some (assert_float64 (Properties feature !! "id")) ∧
     ∃ g, FeatureGeometry feature = Some g ∧ has_positions g) →
  ∀ i canvas, ∃ elems,
    for_range_from i (Fixed.drawFeature env scaleMap) features canvas =
      Next (canvas ++ elems) ∧
    length elems = length features.
Proof.
  induction features as [| feature features IH]; intros Hd i canvas.
  - exists []. split; [by rewrite app_nil_r | reflexivity].
  - destruct (Hd feature) as [[id Hid] (g & Hg & Hpos)]; [left |].
    rewrite for_range_from_cons.
    destruct (fixed_featurePaths_total env feature g Hg Hpos) as [paths Hpaths].
    rewrite (fixed_drawFeature_next env scaleMap canvas i feature id paths Hid Hpaths).
    rewrite exec_bind_next.
    destruct (IH (λ f Hf, Hd f (list_elem_of_further _ _ _ Hf)) (S i)
                (canvas ++ [SvgPath (finalPath paths)
                              (pathStyle (intensityToColor (scaleValue scaleMap id)))]))
      as (elems & -> & Hlen).
    eexists (_ :: elems). split; [by rewrite <- app_assoc |]. simpl. by rewrite Hlen.
Qed.

Lemma fixed_mapHandler_after_geometry env raster r scaleMap fc :
  reaches_geometry env r scaleMap fc →
  Fixed.mapHandler env raster r =
    run (canvas ← for_range (Fixed.drawFeature env scaleMap) (Features fc) blankCanvas;
         pngData ← or_reply (raster (canvas ++ [SvgEnd]) CANVAS_WIDTH CANVAS_HEIGHT)
                     "Failed to convert svg to png: " StatusInternalServerError;
         Next (mkResponse StatusOK "image/png" (Png pngData))).
Proof.
  intros (H & intensities & data & Hjson & Htable & Hfile & Hfc).
  unfold Fixed.mapHandler. rewrite bool_decide_eq_false_2 by done.
  rewrite Hjson. simpl. rewrite Htable. simpl. rewrite Hfile. simpl. rewrite Hfc.
  reflexivity.
Qed.

(** X20: with the fixed viewport a region without a numeric identifier is
    reported: when the regions before it are drawable, the request is
    answered with status 500 and "Invalid ID format in GeoJSON", and no
    image is rendered. (With the adaptive viewport the same collection makes
    the handler panic.) *)
Theorem fixed_missing_identifier_replies (env : Env)
    (raster : list svg_call → Z → Z → string + string) (r : Request)
    (scaleMap : gmap Z Z) (fc : FeatureCollection)
    (before after : list Feature) (feature : Feature) :
  reaches_geometry env r scaleMap fc →
  Features fc = before ++ feature :: after →
  drawable (mkFeatureCollection before) →
  assert_float64 (Properties feature !! "id") = None →
  Fixed.mapHandler env raster r =
    Responded (http_Error "Invalid ID format in GeoJSON" StatusInternalServerError) ∧
  mapHandler env r = Panicked.
Proof.
  intros Hreach Hfeatures Hbefore Hid. split.
  - rewrite (fixed_mapHandler_after_geometry env raster r scaleMap fc Hreach).
    rewrite Hfeatures. unfold for_range. rewrite for_range_from_app.
    destruct (fixed_draw_loop_total env scaleMap before Hbefore 0%nat blankCanvas)
      as (elems & -> & _).
    rewrite exec_bind_next, for_range_from_cons.
    rewrite (fixed_drawFeature_missing_id env scaleMap _ _ feature Hid). reflexivity.
  - apply (mapHandler_bounds_panic env r scaleMap fc Hreach).
    apply (features_loop_missing_id scaleMap (Features fc) feature); [| exact Hid].
    rewrite Hfeatures. apply elem_of_app. right. left.
Qed.

Lemma fixed_missing_identifier_replies_example :
  Fixed.mapHandler
    (sample_env [] (mkFeatureCollection [sample_region 1 (Some square);
                                         unnamed_region (Some triangle)]))
    (λ _ _ _, inr "png") (sample_request [] "png") =
    Responded (http_Error "Invalid ID format in GeoJSON" StatusInternalServerError) ∧
  mapHandler
    (sample_env [] (mkFeatureCollection [sample_region 1 (Some square);
                                         unnamed_region (Some triangle)]))
    (sample_request [] "png") = Panicked.
Proof.
  apply (fixed_missing_identifier_replies _ _ _ ∅
           (mkFeatureCollection [sample_region 1 (Some square);
                                 unnamed_region (Some triangle)])
           [sample_region 1 (Some square)] [] (unnamed_region (Some triangle))).
  - apply sample_reaches_geometry. reflexivity.
  - reflexivity.
  - intros feature Hin. apply list_elem_of_singleton in Hin as ->.
    apply two_regions_drawable. left.
  - reflexivity.
Defined.

(** X21: with the fixed viewport every request that reaches a drawable
    geometry is handed to the raster collaborator and answered with its
    bytes as image/png (or with 500 and its error), whatever the [format]
    parameter says and also when no region is active; the scene has one
    element per region between the blank canvas and the closing tag. *)
Theorem fixed_always_rasters (env : Env)
    (raster : list svg_call → Z → Z → string + string) (r : Request)
    (scaleMap : gmap Z Z) (fc : FeatureCollection) :
  reaches_geometry env r scaleMap fc →
  drawable fc →
  ∃ elems,
    length elems = length (Features fc) ∧
    Fixed.mapHandler env raster r =
      match raster (blankCanvas ++ elems ++ [SvgEnd]) 1280 720 with
      | inr bytes => Responded (mkResponse StatusOK "image/png" (Png bytes))
      | inl err =>
          Responded (http_Error ("Failed to convert svg to png: " +:+ err)
                       StatusInternalServerError)
      end.
Proof.
  intros Hreach Hd.
  destruct (fixed_draw_loop_total env scaleMap (Features fc) Hd 0%nat blankCanvas)
    as (elems & Hloop & Hlen).
  exists elems. split; [exact Hlen |].
  rewrite (fixed_mapHandler_after_geometry env raster r scaleMap fc Hreach).
  unfold for_range. rewrite Hloop, exec_bind_next, <- app_assoc.
  unfold CANVAS_WIDTH, CANVAS_HEIGHT.
  destruct (raster _ _ _); reflexivity.
Qed.

Lemma fixed_always_rasters_example :
  ∃ elems,
    length elems = length (Features two_regions) ∧
    Fixed.mapHandler (sample_env [] two_regions) (λ _ _ _, inr "png")
      (sample_request [] "svg") =
      match (λ _ _ _, inr "png") (blankCanvas ++ elems ++ [SvgEnd]) 1280 720 with
      | inr bytes => Responded (mkResponse StatusOK "image/png" (Png bytes))
      | inl err =>
          Responded (http_Error ("Failed to convert svg to png: " +:+ err)
                       StatusInternalServerError)
      end.
Proof.
  apply (fixed_always_rasters _ _ _ ∅ two_regions).
  - apply sample_reaches_geometry. reflexivity.
  - apply two_regions_drawable.
Defined.

(** ** Projection: a box reduced to one position *)

Lemma infinite_or_nan_not_finite (x : float) : infinite_or_nan x → is_finite x = false.
Proof.
  unfold infinite_or_nan, is_finite, is_nan, is_infinity.
  rewrite !FloatAxioms.eqb_spec, abs_spec.
  replace (Prim2SF infinity) with (S754_infinity false) by (vm_compute; reflexivity).
  destruct (Prim2SF x) as [s | [|] | | s m e]; simpl; tauto.
Qed.

Lemma float64_number_finite (r : R) : float64_number r → is_finite (float64_of r) = true.
Proof.
  intros [f Hf].
  assert (float64_value (float64_of r) = Some r) as Hv.
  { unfold float64_of.
    pose proof (epsilon_spec (inhabits nan)
                  (λ g, float64_value g = Some r ∧ Prim2SF g ≠ S754_zero true)) as Hspec.
    apply Hspec. unfold float64_value in Hf.
    destruct (Prim2SF f) as [[|] | s | | s m e] eqn:Hsf; try discriminate.
    - exists 0%float. split; [exact Hf | vm_compute; discriminate].
    - exists f. unfold float64_value. rewrite Hsf. split; [exact Hf | discriminate].
    - exists f. unfold float64_value. rewrite Hsf. split; [exact Hf | discriminate]. }
  unfold float64_value in Hv. unfold is_finite, is_nan, is_infinity.
  rewrite !FloatAxioms.eqb_spec, abs_spec.
  replace (Prim2SF infinity) with (S754_infinity false) by (vm_compute; reflexivity).
  destruct (Prim2SF (float64_of r)) as [s | s | | s m e]; try discriminate; simpl.
  - reflexivity.
  - unfold SFeqb, SFcompare.
    destruct s; rewrite Z.compare_refl, Pos.compare_cont_refl; reflexivity.
Qed.

Lemma float64_mul_infinite (t k : float) :
  (∃ s, Prim2SF k = S754_infinity s) → infinite_or_nan (t * k).
Proof.
  intros [s Hk]. unfold infinite_or_nan. rewrite mul_spec, Hk.
  destruct (Prim2SF t) as [st | st | | st m e]; exact I.
Qed.

Lemma float64_add_infinite (t c : float) :
  infinite_or_nan t → (∃ s m e, Prim2SF c = S754_finite s m e) → infinite_or_nan (t + c).
Proof.
  unfold infinite_or_nan. intros Ht (s & m & e & Hc). rewrite add_spec, Hc.
  destruct (Prim2SF t) as [st | st | | st mt et]; try contradiction; exact I.
Qed.

Lemma float64_min_infinite (X Y : float) :
  Prim2SF Y = S754_infinity false →
  (Prim2SF X = S754_nan ∨ ∃ s, Prim2SF X = S754_infinity s) →
  ∃ s, Prim2SF (Float64.min X Y) = S754_infinity s.
Proof.
  intros HY HX. unfold Float64.min. rewrite ltb_spec, HY.
  destruct HX as [HX | [s HX]]; rewrite HX.
  - simpl. rewrite HY. eauto.
  - destruct s; simpl; [rewrite HX | rewrite HY]; eauto.
Qed.

Lemma float64_div_zero_mul (w corr : float) :
  (∃ s m e, Prim2SF w = S754_finite s m e) →
  Prim2SF (w / (0 * corr)) = S754_nan ∨ ∃ s, Prim2SF (w / (0 * corr)) = S754_infinity s.
Proof.
  intros (s & m & e & Hw). rewrite div_spec, mul_spec, Hw.
  replace (Prim2SF 0) with (S754_zero false) by reflexivity.
  destruct (Prim2SF corr) as [sc | sc | | sc mc ec]; simpl; eauto.
Qed.

(** Over a box of no width and no height both axis factors divide by zero:
    the scale factor is an infinity, whatever the cosine is. *)
Lemma single_position_scale (corr p l : float) :
  is_finite l = true → is_finite p = true →
  ∃ s, Prim2SF (Float64.min (1024 / ((l - l) * corr)) (576 / (p - p))) = S754_infinity s.
Proof.
  intros Hl Hp. rewrite !float64_sub_diag by assumption.
  apply float64_min_infinite; [reflexivity |].
  apply float64_div_zero_mul. vm_compute. eauto.
Qed.

Lemma funcToScreen_single_position (math_Cos : float → float) (l p lon lat : float) :
  is_finite l = true → is_finite p = true →
  is_finite (funcToScreen math_Cos l p l p lon lat).1 = false ∧
  is_finite (funcToScreen math_Cos l p l p lon lat).2 = false.
Proof.
  intros Hl Hp. rewrite funcToScreen_eq. cbv zeta. simpl fst. simpl snd.
  pose proof (single_position_scale (math_Cos ((p + p) / 2 * math_Pi / 180)%float) p l Hl Hp)
    as Hscale.
  split; apply infinite_or_nan_not_finite, float64_add_infinite;
    try (apply float64_mul_infinite, Hscale); vm_compute; eauto.
Qed.

(** X22: when the box has no width and no height (all the active positions
    are one position), the scale factor of the projection is an infinity, and
    no position of the map gets a finite screen coordinate: both coordinates
    of every point are infinite or NaN, whatever [math.Cos] returns. *)
Theorem single_position_box_has_no_finite_point (env : Env) (b : BBox) (lon lat : R) :
  minLon b = maxLon b → minLat b = maxLat b →
  float64_number (minLon b) → float64_number (minLat b) →
  is_finite (screenPoint env b lon lat).1 = false ∧
  is_finite (screenPoint env b lon lat).2 = false.
Proof.
  intros Hlon Hlat Hl Hp. unfold screenPoint. rewrite <- Hlon, <- Hlat.
  apply funcToScreen_single_position; apply float64_number_finite; assumption.
Qed.

Lemma one_position_bounds :
  calculateBounds (one_position 135 35) {[1 := 3]} = Next (mkBBox 135 35 135 35).
Proof.
  unfold calculateBounds, for_range. rewrite features_loop_fold.
  - unfold one_position. simpl Features.
    rewrite filter_cons_True by (apply sample_region_active; done).
    simpl. f_equal. unfold initialBounds, extend. simpl. eval_min_max. reflexivity.
  - intros feature Hin. apply list_elem_of_singleton in Hin as ->.
    split; [rewrite sample_region_id; eauto |]. intros _.
    eexists. split; [reflexivity |].
    unfold has_positions. simpl. repeat (constructor; [by eexists |]). constructor.
Qed.

(** The region whose ring is the one position (135, 35), at severity 3: its
    box is that position, and the position itself gets no finite screen
    coordinate. *)
Lemma single_position_box_has_no_finite_point_example :
  calculateBounds (one_position 135 35) {[1 := 3]} = Next (mkBBox 135 35 135 35) ∧
  is_finite (screenPoint (sample_env [mkIntensityQuery 1 3] (one_position 135 35))
               (mkBBox 135 35 135 35) 135 35).1 = false ∧
  is_finite (screenPoint (sample_env [mkIntensityQuery 1 3] (one_position 135 35))
               (mkBBox 135 35 135 35) 135 35).2 = false.
Proof.
  split; [exact one_position_bounds |].
  apply (single_position_box_has_no_finite_point _ (mkBBox 135 35 135 35) 135 35).
  - reflexivity.
  - reflexivity.
  - exists 135%float. unfold float64_value.
    replace (Prim2SF 135) with (S754_finite false 4749890231992320 (-45))
      by (vm_compute; reflexivity).
    f_equal. simpl. lra.
  - exists 35%float. unfold float64_value.
    replace (Prim2SF 35) with (S754_finite false 4925812092436480 (-47))
      by (vm_compute; reflexivity).
    f_equal. simpl. lra.
Defined.
